(** * Verification of the book-template assembly core

    Shallow embedding of the build scripts of the book template:
    - [scripts/author-utils.js]      : [getAuthorString], [getAuthorArray]
    - the runtime TOC builder         : [initTableOfContents] (counters)
    - [buildKindle]                   : chapter TOC anchors
    - [buildWeb] / [buildKindle] / [buildPDF] : chapter ordering
    - [generateChapterPage]           : prev/next links
    - [buildPDF]                      : flat manuscript concatenation
    - [groupChaptersByPrefix]         : chapter grouping in the navigator
    - [scripts/validate.js]           : [validateMetadata], [validate],
                                        [validateChapters] (warnings)
    - [scripts/author-utils.js]      : [getAuthorObjects], [generateAboutAuthors]
    - [scripts/word-count.js]        : [buildLeanpub], [createLeanpubFiles],
                                        [extractTitle]
    - the runtime TOC builder         : heading ids, [adjustTocPosition],
                                        [updateActiveTocItem], sidebar handlers
    - [buildPDF]                      : [processImagePaths]
    - [buildKindle]                   : [createTitlePage]
    - [extractChapterPrefix]          : its arithmetic on JS numbers

    Text is modelled as Stdlib [string] (a byte string); the regular
    expressions of the sources only involve ASCII characters, so their
    character classes are written out on [ascii]. *)

From Stdlib Require Import List String Ascii Bool Arith Lia Permutation.
From Stdlib Require Import DecimalString ZArith.
From Stdlib Require DecimalNat.
Import ListNotations.

Local Open Scope string_scope.
Local Open Scope list_scope.

(** ** Shared helpers: JS string operations on byte strings *)
Module Js.

(** [Array.prototype.join]. *)
Fixpoint join (sep : string) (l : list string) : string :=
  match l with
  | [] => EmptyString
  | [x] => x
  | x :: r => String.append x (String.append sep (join sep r))
  end.

(** JS truthiness of an optional string field: absent or [""] is falsy. *)
Definition truthy (o : option string) : bool :=
  match o with
  | Some s => negb (String.eqb s EmptyString)
  | None => false
  end.

(** [\s] of JS regular expressions and the characters removed by
    [String.prototype.trim], restricted to ASCII. *)
Definition is_ws (c : ascii) : bool :=
  let n := nat_of_ascii c in
  Nat.eqb n 32 || (Nat.leb 9 n && Nat.leb n 13).

Fixpoint drop_ws (l : list ascii) : list ascii :=
  match l with
  | [] => []
  | c :: r => if is_ws c then drop_ws r else l
  end.

(** [String.prototype.trim]. *)
Definition trim (l : list ascii) : list ascii :=
  rev (drop_ws (rev (drop_ws l))).

(** [Number.prototype.toString] on naturals. *)
Definition nat_to_string (n : nat) : string :=
  NilEmpty.string_of_uint (Nat.to_uint n).

End Js.

(** ** Author utilities ([scripts/author-utils.js]) *)
Module Authors.
Import Js.

Record Author := mkAuthor { name : string }.

(** The parsed [book.yaml] record, restricted to the fields the
    scripts read. [None] is an absent field. *)
Record Metadata := mkMetadata {
  title : option string;
  subtitle : option string;
  description : option string;
  date : option string;
  language : option string;
  version : option string;
  author : option string;
  authors : option (list Author);
  cover_image : option string;  (* [metadata.kindle?.cover_image] *)
  pdfDescription : option string
}.

(** [metadata.authors && Array.isArray(metadata.authors)
     && metadata.authors.length > 0] *)
Definition authors_list (md : Metadata) : option (list Author) :=
  match authors md with
  | Some (a :: l) => Some (a :: l)
  | _ => None
  end.

(** [getAuthorString] *)
Definition getAuthorString (md : Metadata) : string :=
  match authors_list md with
  | Some l =>
      let names := map name l in
      if Nat.eqb (List.length names) 1 then nth 0 names EmptyString
      else if Nat.eqb (List.length names) 2 then
        String.append (nth 0 names EmptyString)
          (String.append " & " (nth 1 names EmptyString))
      else
        String.append (join ", " (removelast names))
          (String.append " & " (last names EmptyString))
  | None =>
      (* [metadata.author || ''] *)
      if truthy (author md) then
        match author md with Some s => s | None => EmptyString end
      else EmptyString
  end.

Definition is_sep (c : ascii) : bool :=
  Ascii.eqb c "&"%char || Ascii.eqb c ","%char.

(** One attempt of the regular expression [/\s*[&,]\s*/] at the head of
    the input; on success, the input left after the match. *)
Definition match_at (s : list ascii) : option (list ascii) :=
  match drop_ws s with
  | c :: r => if is_sep c then Some (drop_ws r) else None
  | [] => None
  end.

(** [String.prototype.split] with that separator: scan for the leftmost
    match, cut the piece before it, continue after it. [cur] is the
    piece read so far; [fuel] bounds the scan by the input length. *)
Fixpoint split_go (fuel : nat) (cur : list ascii) (s : list ascii)
  : list (list ascii) :=
  match fuel with
  | O => [cur ++ s]
  | S f =>
      match s with
      | [] => [cur]
      | c :: r =>
          match match_at s with
          | Some rest => cur :: split_go f [] rest
          | None => split_go f (cur ++ [c]) r
          end
      end
  end.

Definition regex_split (s : list ascii) : list (list ascii) :=
  split_go (S (List.length s)) [] s.

Definition nonempty (l : list ascii) : bool :=
  match l with [] => false | _ => true end.

(** [getAuthorArray] *)
Definition getAuthorArray (md : Metadata) : list string :=
  match authors_list md with
  | Some l => map name l
  | None =>
      if truthy (author md) then
        match author md with
        | Some s =>
            map string_of_list_ascii
              (filter nonempty (map trim (regex_split (list_ascii_of_string s))))
        | None => []
        end
      else []
  end.

(** The reading of the spec: split at every [&] or [,], trim each piece,
    drop the empty ones. *)
Fixpoint split_on_seps (cur : list ascii) (s : list ascii) : list (list ascii) :=
  match s with
  | [] => [cur]
  | c :: r => if is_sep c then cur :: split_on_seps [] r
              else split_on_seps (cur ++ [c]) r
  end.

Definition legacy_names_spec (s : string) : list string :=
  map string_of_list_ascii
    (filter nonempty (map trim (split_on_seps [] (list_ascii_of_string s)))).

Definition md_with (a : option string) (l : option (list Author)) : Metadata :=
  mkMetadata (Some "Book") None None None None None a l None None.

End Authors.

(** ** Runtime table of contents ([initTableOfContents]) *)
Module Toc.
Import Js.

(** [counters = { h1: 0, ..., h6: 0 }] as the list [h1; ...; h6]. *)
Definition init_counters : list nat := [0; 0; 0; 0; 0; 0].

(** [counters[`h${i}`]] *)
Definition get_counter (i : nat) (ctr : list nat) : nat := nth (i - 1) ctr 0.

Fixpoint upd (n : nat) (v : nat) (l : list nat) : list nat :=
  match l, n with
  | [], _ => []
  | _ :: r, O => v :: r
  | x :: r, S n' => x :: upd n' v r
  end.

(** [counters[`h${i}`] = v] *)
Definition set_counter (i : nat) (v : nat) (ctr : list nat) : list nat :=
  upd (i - 1) v ctr.

(** [for (let i = level + 1; i <= 6; i++) counters[`h${i}`] = 0;]
    run from [i] for [n] iterations. *)
Fixpoint reset_loop (n i : nat) (ctr : list nat) : list nat :=
  match n with
  | O => ctr
  | S n' => reset_loop n' (S i) (set_counter i 0 ctr)
  end.

(** The counter update for one heading of level [level] (1..6):
    reset the deeper counters, then [counters[`h${level}`]++]. *)
Definition process_heading (ctr : list nat) (level : nat) : list nat :=
  let c1 := reset_loop (6 - level) (level + 1) ctr in
  set_counter level (S (get_counter level c1)) c1.

(** The counters after the headings of [levels], in document order. *)
Definition run (levels : list nat) : list nat :=
  fold_left process_heading levels init_counters.

(** The number path of a heading of level [level]: the counters
    [h1 .. h_level]. *)
Definition numberPath (ctr : list nat) (level : nat) : list nat :=
  firstn level ctr.

Definition numberPath_string (p : list nat) : string :=
  join "." (map nat_to_string p).

(** The number of every heading of a page, in document order. *)
Fixpoint numbers_go (ctr : list nat) (levels : list nat) : list string :=
  match levels with
  | [] => []
  | l :: r =>
      let c := process_heading ctr l in
      numberPath_string (numberPath c l) :: numbers_go c r
  end.

Definition heading_numbers (levels : list nat) : list string :=
  numbers_go init_counters levels.

End Toc.

(** ** Chapter TOC anchors of the Kindle manuscript ([buildKindle]) *)
Module Anchors.

(** [toLowerCase] on ASCII letters. *)
Definition lower (c : ascii) : ascii :=
  let n := nat_of_ascii c in
  if Nat.leb 65 n && Nat.leb n 90 then ascii_of_nat (n + 32) else c.

(** The class [[a-z0-9]]. *)
Definition is_az09 (c : ascii) : bool :=
  let n := nat_of_ascii c in
  (Nat.leb 97 n && Nat.leb n 122) || (Nat.leb 48 n && Nat.leb n 57).

(** [.replace(/[^a-z0-9]+/g, '-')]: every maximal run outside the class
    becomes one hyphen; [in_run] says the previous character was in
    such a run. *)
Fixpoint collapse_runs (in_run : bool) (s : list ascii) : list ascii :=
  match s with
  | [] => []
  | c :: r =>
      if is_az09 c then c :: collapse_runs false r
      else if in_run then collapse_runs true r
      else "-"%char :: collapse_runs true r
  end.

(** [.replace(/^-|-$/g, '')]: one hyphen at the start, then one hyphen
    at the end of what is left. *)
Definition strip_hyphens (s : list ascii) : list ascii :=
  let s1 := match s with "-"%char :: r => r | _ => s end in
  match rev s1 with "-"%char :: r => rev r | _ => s1 end.

(** [title.toLowerCase().replace(/[^a-z0-9]+/g, '-').replace(/^-|-$/g, '')] *)
Definition anchor_of (t : string) : string :=
  string_of_list_ascii
    (strip_hyphens (collapse_runs false (map lower (list_ascii_of_string t)))).

Record Section := mkSection { stitle : string; sanchor : string }.

(** The [sections] of one [tocEntries] entry, from the [##] heading
    texts of the chapter (already trimmed), in document order. *)
Definition sections_of (titles : list string) : list Section :=
  map (fun t => mkSection t (anchor_of t)) titles.

Definition section_anchors (titles : list string) : list string :=
  map sanchor (sections_of titles).

End Anchors.

(** ** Chapter ordering ([buildWeb], [buildKindle], [buildPDF]) *)
Module Corpus.

(** A file name as its UTF-16 code units, as JS compares strings. *)
Definition FileName := list nat.

Definition units (s : string) : FileName :=
  map nat_of_ascii (list_ascii_of_string s).

(** [file.endsWith('.md')] *)
Definition ends_with_md (f : FileName) : bool :=
  match rev f with
  | 100 :: 109 :: 46 :: _ => true
  | _ => false
  end.

(** The default comparison of [Array.prototype.sort]: code units in
    lexicographic order, a proper prefix first. *)
Fixpoint lex_leb (a b : FileName) : bool :=
  match a, b with
  | [], _ => true
  | _ :: _, [] => false
  | x :: a', y :: b' =>
      if Nat.ltb x y then true
      else if Nat.ltb y x then false
      else lex_leb a' b'
  end.

Fixpoint insert (x : FileName) (l : list FileName) : list FileName :=
  match l with
  | [] => [x]
  | y :: r => if lex_leb x y then x :: y :: r else y :: insert x r
  end.

(** [.sort()]: a stable sort by [lex_leb]. *)
Fixpoint sort (l : list FileName) : list FileName :=
  match l with
  | [] => []
  | x :: r => insert x (sort r)
  end.

(** [chapterFiles.filter(file => file.endsWith('.md')).sort()] *)
Definition markdownFiles (listing : list FileName) : list FileName :=
  sort (filter ends_with_md listing).

(** [path.join(chaptersDir, file)] for a plain file name. *)
Definition join_dir (dir : string) (f : FileName) : FileName :=
  units dir ++ [47] ++ f.

(** The chapter sequence of each target. *)
Definition web_chapter_files (listing : list FileName) : list FileName :=
  markdownFiles listing.

Definition kindle_chapter_files (listing : list FileName) : list FileName :=
  map (join_dir "src/chapters") (markdownFiles listing).

Definition pdf_chapter_files (listing : list FileName) : list FileName :=
  markdownFiles listing.

End Corpus.

(** ** Web chapter pages: previous/next links ([generateChapterPage]) *)
Module WebNav.

(** [str.replace(pat, rep)] with a string pattern: the first
    occurrence only, the input unchanged when there is none. *)
Fixpoint replace_first (pat rep s : string) : string :=
  if String.prefix pat s
  then String.append rep (substring (String.length pat)
                            (String.length s - String.length pat) s)
  else match s with
       | EmptyString => EmptyString
       | String c r => String c (replace_first pat rep r)
       end.

Record Chapter := mkChapter { filename : string; slug : string }.

(** The file-name fields of [processChapter]. *)
Definition processChapter (file : string) : Chapter :=
  mkChapter (replace_first ".md" ".html" file) (replace_first ".md" "" file).

Fixpoint find_index {A} (p : A -> bool) (l : list A) : option nat :=
  match l with
  | [] => None
  | x :: r => if p x then Some 0 else option_map S (find_index p r)
  end.

(** [Array.prototype.findIndex]: [-1] when nothing matches. *)
Definition findIndex {A} (p : A -> bool) (l : list A) : Z :=
  match find_index p l with Some n => Z.of_nat n | None => (-1)%Z end.

(** [prevChapter] and [nextChapter] of [generateChapterPage];
    [None] is [null]. *)
Definition chapter_links (chapter : Chapter) (allChapters : list Chapter)
  : option Chapter * option Chapter :=
  let currentIndex :=
    findIndex (fun c => String.eqb (slug c) (slug chapter)) allChapters in
  let prevChapter :=
    if Z.ltb 0 currentIndex
    then nth_error allChapters (Z.to_nat (currentIndex - 1)) else None in
  let nextChapter :=
    if Z.ltb currentIndex (Z.of_nat (List.length allChapters) - 1)
    then nth_error allChapters (Z.to_nat (currentIndex + 1)) else None in
  (prevChapter, nextChapter).

(** [buildWeb]: the chapters in file order, each with its links. *)
Definition web_pages (markdownFiles : list string)
  : list (Chapter * (option Chapter * option Chapter)) :=
  let chapters := map processChapter markdownFiles in
  map (fun c => (c, chapter_links c chapters)) chapters.

End WebNav.

(** ** Flat manuscript of the PDF pipeline ([buildPDF]) *)
Module Pdf.
Import Js Authors.

Definition nl : string := String (ascii_of_nat 10) EmptyString.
Definition dq : string := String (ascii_of_nat 34) EmptyString.

Definition cat (l : list string) : string := fold_right String.append EmptyString l.

(** [`${x}`] of an optional string field. *)
Definition js_str (o : option string) : string :=
  match o with Some s => s | None => "undefined" end.

(** [a || b] on optional string fields. *)
Definition js_or (o : option string) (d : string) : string :=
  if truthy o then js_str o else d.

(** [s.split('\n')] *)
Fixpoint split_lines_go (cur : string) (s : string) : list string :=
  match s with
  | EmptyString => [cur]
  | String c r =>
      if Ascii.eqb c (ascii_of_nat 10) then cur :: split_lines_go EmptyString r
      else split_lines_go (String.append cur (String c EmptyString)) r
  end.

Definition split_lines (s : string) : list string := split_lines_go EmptyString s.

(** [createTitlePage]; [today] is [new Date().toLocaleDateString()]. *)
Definition createTitlePage (md : Metadata) (today : string) : string :=
  let authorArray := getAuthorArray md in
  let descText := js_or (pdfDescription md) (js_or (description md) "") in
  let formattedDesc :=
    join nl (map (fun line => String.append "  " line) (split_lines descText)) in
  let authorList := join nl (map (fun a => String.append "- " a) authorArray) in
  join nl
    [ "---";
      cat ["title: "; dq; js_str (title md); dq];
      cat ["subtitle: "; dq; js_or (subtitle md) ""; dq];
      "author:";
      authorList;
      "abstract: |";
      formattedDesc;
      cat ["abstract-title: "; dq; "**About this Book**"; dq];
      "description: |";
      formattedDesc;
      cat ["date: "; dq; today; dq];
      "documentclass: book";
      "classoption: [12pt, oneside]";
      "geometry: [margin=1in]";
      "fontfamily: libertinus";
      "colorlinks: true";
      "linkcolor: blue";
      "urlcolor: blue";
      "citecolor: blue";
      "---";
      "";
      "" ].

Fixpoint span (p : ascii -> bool) (l : list ascii) : list ascii * list ascii :=
  match l with
  | [] => ([], [])
  | c :: r => if p c then let (a, b) := span p r in (c :: a, b) else ([], l)
  end.

Fixpoint strip_prefix (pre l : list ascii) : option (list ascii) :=
  match pre, l with
  | [], _ => Some l
  | p :: pre', c :: l' => if Ascii.eqb p c then strip_prefix pre' l' else None
  | _ :: _, [] => None
  end.

Definition opt_prefix (pre l : list ascii) : list ascii :=
  match strip_prefix pre l with Some r => r | None => l end.

(** One attempt of the image-link expression of [processImagePaths]
    (["!["], a run of non-[]] characters, ["]("], an optional ["../"],
    an optional ["src/"], ["images/"], a non-empty run of non-[)]
    characters, [")"]) at the head of the input: the two groups and
    the input after the match. Each
    quantifier is followed by a character it cannot consume, so the
    greedy choice is the only one that can succeed. *)
Definition match_img (s : list ascii)
  : option (list ascii * list ascii * list ascii) :=
  match s with
  | "!"%char :: "["%char :: r =>
      let (alt, r1) := span (fun c => negb (Ascii.eqb c "]"%char)) r in
      match r1 with
      | "]"%char :: "("%char :: r2 =>
          let r4 := opt_prefix (list_ascii_of_string "src/")
                      (opt_prefix (list_ascii_of_string "../") r2) in
          match strip_prefix (list_ascii_of_string "images/") r4 with
          | Some r5 =>
              let (nm, r6) := span (fun c => negb (Ascii.eqb c ")"%char)) r5 in
              match nm, r6 with
              | _ :: _, ")"%char :: r7 => Some (alt, nm, r7)
              | _, _ => None
              end
          | None => None
          end
      | _ => None
      end
  | _ => None
  end.

(** The global replacement by ['![$1](images/$2)']. *)
Fixpoint replace_imgs (fuel : nat) (s : list ascii) : list ascii :=
  match fuel with
  | O => s
  | S f =>
      match s with
      | [] => []
      | c :: r =>
          match match_img s with
          | Some (alt, nm, rest) =>
              list_ascii_of_string "![" ++ alt ++ list_ascii_of_string "](images/"
                ++ nm ++ list_ascii_of_string ")" ++ replace_imgs f rest
          | None => c :: replace_imgs f r
          end
      end
  end.

(** [processImagePaths] *)
Definition processImagePaths (content : string) : string :=
  let l := list_ascii_of_string content in
  string_of_list_ascii (replace_imgs (S (List.length l)) l).

(** [haystack.includes(needle)] *)
Fixpoint includes (haystack needle : string) : bool :=
  String.prefix needle haystack
  || match haystack with
     | EmptyString => false
     | String _ r => includes r needle
     end.

Definition page_break : string := cat [nl; "\newpage"; nl; nl].

(** The chapter loop of [buildPDF]: a page break is added before a
    chapter when the text so far contains ["# "]. *)
Fixpoint add_chapters (combinedContent : string) (contents : list string) : string :=
  match contents with
  | [] => combinedContent
  | content :: rest =>
      let content := processImagePaths content in
      let withBreak :=
        if includes combinedContent "# "
        then String.append combinedContent page_break else combinedContent in
      add_chapters (cat [withBreak; content; nl; nl]) rest
  end.

(** The title page and the [\tableofcontents] block. *)
Definition pdf_header (md : Metadata) (today : string) : string :=
  cat [createTitlePage md today;
       nl; "\newpage"; nl; "\tableofcontents"; nl; "\newpage"; nl; nl].

(** [combined.md] for the chapter contents in corpus order. *)
Definition combined_manuscript (md : Metadata) (today : string)
  (contents : list string) : string :=
  add_chapters (pdf_header md today) contents.

End Pdf.

(** ** JS numbers *)
Module JsNumber.

(** The integer-valued IEEE-754 doubles that [extractChapterPrefix]
    computes with; [Fin z] is the double of value [z]. *)
Inductive num := Fin (z : Z) | PosInf | NegInf.

(** [floor (log2 (p / q))] for [p, q > 0]. *)
Definition ilog2_rat (p q : Z) : Z :=
  if (q <=? p)%Z then Z.log2 (p / q) else (- Z.log2_up ((q + p - 1) / p))%Z.

(** Rounding half to even of [n / d], [d > 0]. *)
Definition round_half_even (n d : Z) : Z :=
  let '(q, r) := Z.div_eucl n d in
  if (d <? 2 * r)%Z || ((2 * r =? d)%Z && Z.odd q) then (q + 1)%Z else q.

(** The double nearest to [p / q] for [p, q > 0], ties to even, as
    [k * 2 ^ s]; [None] on overflow to [Infinity]. Subnormals have the
    fixed exponent [-1074]. *)
Definition round_pos (p q : Z) : option (Z * Z) :=
  let e := ilog2_rat p q in
  let s := Z.max (e - 52) (-1074) in
  let k := if (0 <=? s)%Z then round_half_even p (q * 2 ^ s)
           else round_half_even (p * 2 ^ (- s)) q in
  if (2 ^ 1024 <=? k * 2 ^ s)%Z && (0 <=? s)%Z then None
  else Some (k, s).

(** [Math.floor] of [k * 2 ^ s]. *)
Definition dy_floor (k s : Z) : Z :=
  if (0 <=? s)%Z then (k * 2 ^ s)%Z else (k / 2 ^ (- s))%Z.

(** [Math.floor] of the double nearest to [p / q], [q > 0]. *)
Definition floor_round (p q : Z) : num :=
  if (p =? 0)%Z then Fin 0
  else if (0 <? p)%Z then
    match round_pos p q with Some (k, s) => Fin (dy_floor k s) | None => PosInf end
  else
    match round_pos (- p) q with
    | Some (k, s) => Fin (dy_floor (- k) s)
    | None => NegInf
    end.

(** The double nearest to the integer [z]. *)
Definition of_Z (z : Z) : num := floor_round z 1.

(** [x + c] for an integer [c]. *)
Definition add (x : num) (c : Z) : num :=
  match x with Fin z => of_Z (z + c) | _ => x end.

(** [x * c] for an integer [c > 0]. *)
Definition mul (x : num) (c : Z) : num :=
  match x with Fin z => of_Z (z * c) | _ => x end.

(** [Math.floor(x / c)] for an integer [c > 0]. *)
Definition floor_div (x : num) (c : Z) : num :=
  match x with Fin z => floor_round z c | _ => x end.

Definition Z_to_string (z : Z) : string := NilEmpty.string_of_int (Z.to_int z).

Definition ndigits (z : Z) : Z := Z.of_nat (String.length (Z_to_string z)).

Definition roundtrips (z c : Z) : bool :=
  match of_Z c with Fin c' => Z.eqb c' z | _ => false end.

(** The search of [Number::toString] for a positive integer double [z]
    with [n] digits: the least [k] for which a multiple [c] of
    [10 ^ (n - k)] converts back to [z]; of two such [c], the nearer to
    [z], and on a tie the one with the even leading part. *)
Fixpoint shortest_go (z n : Z) (fuel : nat) (k : Z) : Z :=
  match fuel with
  | O => z
  | S f =>
      let u := (10 ^ (n - k))%Z in
      let lo := (z / u * u)%Z in
      let hi := (lo + u)%Z in
      match roundtrips z lo, roundtrips z hi with
      | true, true =>
          if (z - lo <? hi - z)%Z then lo
          else if (hi - z <? z - lo)%Z then hi
          else if Z.even (lo / u) then lo else hi
      | true, false => lo
      | false, true => hi
      | false, false => shortest_go z n f (k + 1)
      end
  end.

Definition shortest (z : Z) : Z :=
  shortest_go z (ndigits z) (Z.to_nat (ndigits z)) 1.

Fixpoint strip_zeros_rev (l : list ascii) : list ascii :=
  match l with
  | "0"%char :: r => strip_zeros_rev r
  | _ => l
  end.

(** The exponent form [d.ddde+n] of a positive integer [c >= 10^21]. *)
Definition exp_form (c : Z) : string :=
  let ds := list_ascii_of_string (Z_to_string c) in
  let sig := rev (strip_zeros_rev (rev ds)) in
  let e := Z_to_string (ndigits c - 1) in
  match sig with
  | [] => "0"
  | [d] => String d (String.append "e+" e)
  | d :: r => String d (String.append "." (String.append (string_of_list_ascii r)
                                             (String.append "e+" e)))
  end.

Definition pos_to_string (z : Z) : string :=
  let c := shortest z in
  if (c <? 10 ^ 21)%Z then Z_to_string c else exp_form c.

(** [ToString] of a number, as in template literals. *)
Definition to_string (x : num) : string :=
  match x with
  | PosInf => "Infinity"
  | NegInf => "-Infinity"
  | Fin z =>
      if (z =? 0)%Z then "0"
      else if (0 <? z)%Z then pos_to_string z
      else String.append "-" (pos_to_string (- z))
  end.

End JsNumber.

(** ** Chapter grouping of the navigator ([groupChaptersByPrefix]) *)
Module Grouping.
Import Js.

Definition is_digit (c : ascii) : bool :=
  Nat.leb 48 (nat_of_ascii c) && Nat.leb (nat_of_ascii c) 57.

Fixpoint digits_prefix (l : list ascii) : list ascii :=
  match l with
  | c :: r => if is_digit c then c :: digits_prefix r else []
  | [] => []
  end.

(** Case-insensitive match of an ASCII word at the head of the input
    (the [i] flag); the input left after it. *)
Fixpoint match_ci (word l : list ascii) : option (list ascii) :=
  match word, l with
  | [], _ => Some l
  | w :: word', c :: l' =>
      if Ascii.eqb (Anchors.lower w) (Anchors.lower c) then match_ci word' l' else None
  | _ :: _, [] => None
  end.

(** [parseInt] of a run of decimal digits. *)
Definition parse_digits (l : list ascii) : Z :=
  fold_left (fun acc c => (10 * acc + Z.of_nat (nat_of_ascii c - 48))%Z) l 0%Z.

Definition Z_to_string (z : Z) : string := NilEmpty.string_of_int (Z.to_int z).

(** [extractChapterPrefix] *)
Definition extractChapterPrefix (title : string) : string :=
  let t := list_ascii_of_string title in
  match match_ci (list_ascii_of_string "Part ") t with
  | Some r =>
      match digits_prefix r with
      | (_ :: _) as ds => string_of_list_ascii (firstn 5 t ++ ds)
      | [] =>
          (* not a Part prefix; the Chapter test below cannot match either *)
          "Chapters"
      end
  | None =>
      match match_ci (list_ascii_of_string "Chapter ") t with
      | Some r =>
          match digits_prefix r with
          | (_ :: _) as ds =>
              (* [parseInt]: V8 rounds the decimal digits to the nearest
                 double; every operation below is a double operation *)
              let num := JsNumber.of_Z (parse_digits ds) in
              let groupSize := 5%Z in
              let groupStart :=
                JsNumber.add (JsNumber.mul (JsNumber.floor_div (JsNumber.add num (-1)) groupSize)
                                groupSize) 1 in
              let groupEnd := JsNumber.add (JsNumber.add groupStart groupSize) (-1) in
              String.append "Chapters "
                (String.append (JsNumber.to_string groupStart)
                   (String.append "-" (JsNumber.to_string groupEnd)))
          | [] => "Chapters"
          end
      | None => "Chapters"
      end
  end.

(** The [groups] map: prefixes in first-insertion order, each with its
    items (chapter positions) in document order. *)
Fixpoint add_to_group (k : string) (item : nat) (gs : list (string * list nat))
  : list (string * list nat) :=
  match gs with
  | [] => [(k, [item])]
  | (k', items) :: r =>
      if String.eqb k k' then (k', items ++ [item]) :: r
      else (k', items) :: add_to_group k item r
  end.

Definition build_groups (titles : list string) : list (string * list nat) :=
  fold_left (fun gs it => add_to_group (extractChapterPrefix (snd it)) (fst it) gs)
    (combine (seq 0 (List.length titles)) titles) [].

(** What the container holds after grouping. *)
Inductive Node := Group (header : string) (items : list nat) | Flat (item : nat).

(** [groupChaptersByPrefix]; [None] leaves the container untouched. *)
Definition groupChaptersByPrefix (titles : list string) : option (list Node) :=
  let groups := build_groups titles in
  let meaningfulGroups :=
    filter (fun g => Nat.ltb 1 (List.length (snd g))) groups in
  if Nat.ltb 1 (List.length meaningfulGroups) then
    Some (map (fun g => if Nat.ltb 1 (List.length (snd g))
                        then Group (fst g) (snd g)
                        else Flat (hd 0 (snd g))) groups)
  else None.

(** [initChapterGrouping] *)
Definition initChapterGrouping (titles : list string) : option (list Node) :=
  if Nat.ltb 20 (List.length titles) then groupChaptersByPrefix titles else None.

Definition is_group (n : Node) : bool :=
  match n with Group _ _ => true | Flat _ => false end.

(** ["Chapter 1"], ..., ["Chapter n"]. *)
Definition chapter_titles (n : nat) : list string :=
  map (fun k => String.append "Chapter " (Z_to_string (Z.of_nat k))) (seq 1 n).

End Grouping.

(** ** The Kindle title page ([createTitlePage] of [buildKindle]) *)
Module KindleTitle.
Import Js Authors Pdf.

(** [createTitlePage] *)
Definition createTitlePage (md : Metadata) : string :=
  let authorString := getAuthorString md in
  join nl
    [ "---";
      cat ["title: "; dq; js_str (title md); dq];
      cat ["subtitle: "; dq; js_or (subtitle md) ""; dq];
      cat ["author: "; dq; authorString; dq];
      cat ["date: "; dq; js_str (date md); dq];
      "---";
      "";
      String.append "# " (js_str (title md));
      "";
      (if truthy (subtitle md) then String.append "## " (js_str (subtitle md)) else "");
      "";
      cat ["**By "; authorString; "**"];
      "";
      cat ["*"; js_str (date md); "*"];
      "";
      js_or (description md) "";
      "";
      "---" ].

End KindleTitle.

(** ** The validator ([scripts/validate.js]) and the web build *)
Module Validate.
Import Js Authors.

Definition dq : string := String (ascii_of_nat 34) EmptyString.
Definition sq : string := String (ascii_of_nat 39) EmptyString.

(** A value of the document [yaml.parse] returns, and [undefined] for a
    missing property. Of a number only its truthiness is read ([0] and
    [NaN] are falsy). Mapping keys are unique ([yaml] rejects duplicate
    keys). *)
Inductive YVal :=
| YUndefined
| YNull
| YBool (b : bool)
| YNumber (nonzero : bool)
| YString (s : string)
| YArray (items : list YVal)
| YObject (props : list (string * YVal)).

(** JS truthiness. *)
Definition ytruthy (v : YVal) : bool :=
  match v with
  | YUndefined | YNull => false
  | YBool b => b
  | YNumber nz => nz
  | YString s => negb (String.eqb s EmptyString)
  | YArray _ | YObject _ => true
  end.

Fixpoint lookup (k : string) (props : list (string * YVal)) : YVal :=
  match props with
  | [] => YUndefined
  | (k', v) :: r => if String.eqb k k' then v else lookup k r
  end.

(** [v[k]] for the property names the validator reads (none of them is
    a property of the built-in prototypes): [None] when [v] is [null] or
    [undefined], where V8 throws a [TypeError]. *)
Definition get (v : YVal) (k : string) : option YVal :=
  match v with
  | YUndefined | YNull => None
  | YObject props => Some (lookup k props)
  | _ => Some YUndefined
  end.

Definition read_error (v : YVal) (k : string) : string :=
  String.append "Cannot read properties of "
    (String.append (match v with YNull => "null" | _ => "undefined" end)
       (String.append " (reading " (String.append sq (String.append k (String.append sq ")"))))).

(** What a stretch of [validateMetadata] does: the errors and the
    warnings it pushes, and the message of the exception it throws, if
    any (the pushes before the exception stay). *)
Record Out := mkOut { errs : list string; warns : list string; thrown : option string }.

Definition ok : Out := mkOut [] [] None.
Definition push_error (e : string) : Out := mkOut [e] [] None.
Definition push_warning (w : string) : Out := mkOut [] [w] None.
Definition throw (m : string) : Out := mkOut [] [] (Some m).

(** Run [o1], then [o2] unless [o1] threw. *)
Definition seq_out (o1 o2 : Out) : Out :=
  match thrown o1 with
  | Some _ => o1
  | None => mkOut (errs o1 ++ errs o2) (warns o1 ++ warns o2) (thrown o2)
  end.

Definition seq_all (os : list Out) : Out := fold_right seq_out ok os.

(** Read [v[k]] and continue with its value. *)
Definition with_prop (v : YVal) (k : string) (f : YVal -> Out) : Out :=
  match get v k with
  | None => throw (read_error v k)
  | Some x => f x
  end.

(** [!metadata.authors || !Array.isArray(metadata.authors)
     || metadata.authors.length === 0] *)
Definition no_author_list (v : YVal) : bool :=
  match v with YArray (_ :: _) => false | _ => true end.

(** [path.resolve('src', p)] (POSIX) from the working directory [cwd],
    an absolute path as [process.cwd()] returns: the segments of
    [cwd/src/p], or of [p] alone when [p] is absolute, where empty and
    [.] segments are dropped and [..] drops the segment before it (none
    above the root). *)
Fixpoint split_slash_go (cur : string) (s : string) : list string :=
  match s with
  | EmptyString => [cur]
  | String c r =>
      if Ascii.eqb c "/"%char then cur :: split_slash_go EmptyString r
      else split_slash_go (String.append cur (String c EmptyString)) r
  end.

Fixpoint normalize (acc : list string) (segs : list string) : list string :=
  match segs with
  | [] => acc
  | s :: r =>
      if String.eqb s "" || String.eqb s "." then normalize acc r
      else if String.eqb s ".." then normalize (tl acc) r
      else normalize (s :: acc) r
  end.

Definition resolve_src (cwd p : string) : string :=
  let full := match p with
              | String "/"%char _ => p
              | _ => String.append cwd (String.append "/src/" p)
              end in
  String.append "/" (join "/" (rev (normalize [] (split_slash_go EmptyString full)))).

Section Metadata_checks.
Variable cwd : string.
Variable exists_path : string -> bool.

Definition check_required (md : YVal) : Out :=
  seq_all (map (fun f => with_prop md f (fun v =>
             if ytruthy v then ok
             else push_error (String.append "Missing required metadata field: " f)))
           ["title"; "description"; "date"]).

Definition author_msg : string :=
  ("Missing author information: must have either " ++ dq ++ "author" ++ dq
   ++ " field or " ++ dq ++ "authors" ++ dq ++ " array")%string.

Definition check_author (md : YVal) : Out :=
  with_prop md "author" (fun a =>
    if ytruthy a then ok
    else with_prop md "authors" (fun au =>
           if no_author_list au then push_error author_msg else ok)).

(** The two checks on [author.name] of the entry at [index]. *)
Definition check_name (index : nat) (a : YVal) : Out :=
  seq_out
    (with_prop a "name" (fun n =>
       if ytruthy n then ok
       else push_error ("Author at index " ++ nat_to_string index ++ " is missing "
                        ++ dq ++ "name" ++ dq ++ " field")%string))
    (with_prop a "name" (fun n =>
       match n with
       | YString _ => ok
       | _ => push_error ("Author at index " ++ nat_to_string index ++ " "
                          ++ dq ++ "name" ++ dq ++ " field must be a string")%string
       end)).

Definition check_names (md : YVal) : Out :=
  with_prop md "authors" (fun au =>
    match au with
    | YArray l => seq_all (map (fun p => check_name (fst p) (snd p))
                             (combine (seq 0 (List.length l)) l))
    | _ => ok
    end).

Definition check_recommended (md : YVal) : Out :=
  seq_all (map (fun f => with_prop md f (fun v =>
             if ytruthy v then ok
             else push_warning (String.append "Missing recommended metadata field: " f)))
           ["subtitle"; "language"; "version"]).

Definition check_cover_value (c : YVal) : Out :=
  if ytruthy c then
    match c with
    | YString s =>
        let coverPath := resolve_src cwd (WebNav.replace_first "../" "" s) in
        if exists_path coverPath then ok
        else push_error (String.append "Cover image not found: " coverPath)
    | _ => throw "metadata.kindle.cover_image.replace is not a function"
    end
  else push_warning "No cover image specified in metadata".

(** [metadata.kindle?.cover_image] and the cover check. *)
Definition check_cover (md : YVal) : Out :=
  with_prop md "kindle" (fun k =>
    match k with
    | YUndefined | YNull => check_cover_value YUndefined
    | _ => with_prop k "cover_image" check_cover_value
    end).

Definition metadata_checks (md : YVal) : Out :=
  seq_all [check_required md; check_author md; check_names md;
           check_recommended md; check_cover md].

(** [validateMetadata]: the errors and the warnings it pushes, in order.
    [doc] is the parsed [book.yaml], or the message of the exception
    reading or parsing it threw; an exception ends in the [catch], which
    pushes one more error. *)
Definition validateMetadata (doc : string + YVal) : list string * list string :=
  let o := match doc with inl m => throw m | inr md => metadata_checks md end in
  (errs o ++ match thrown o with
             | Some m => [String.append "Invalid YAML in metadata file: " m]
             | None => []
             end,
   warns o).

End Metadata_checks.

Inductive Exit := ExitOk | ExitFail.

(** [validate]: [dir_errors] are those of the directory checks,
    [content_errors] those of [validateChapters] and [validateImages];
    [meta] is [None] when [src/metadata/book.yaml] does not exist. Any
    error makes it [process.exit(1)]. *)
Definition validate (cwd : string) (exists_path : string -> bool)
  (dir_errors : list string) (meta : option (string + YVal))
  (content_errors : list string) : Exit :=
  match dir_errors
        ++ match meta with
           | None => ["Missing book metadata file: src/metadata/book.yaml"]
           | Some doc => fst (validateMetadata cwd exists_path doc)
           end
        ++ content_errors with
  | [] => ExitOk
  | _ => ExitFail
  end.

Inductive BuildResult := Built (pages : list (string * string)) | Aborted (msg : string).

(** The part of [buildWeb] that reads the metadata: each written page
    with the title given to the layout. The index page passes
    [bookMetadata.title] to Handlebars (absent renders as [""]); a
    chapter page passes [`${chapter.title} - ${bookMetadata.title}`].
    [io] is the outcome of its file-system steps ([ensureDir],
    [readFile], [readdir], the template and asset files, [writeFile]):
    [Some e] for the first that fails, whose message the [catch] logs
    before [process.exit(1)]. Nothing in [buildWeb] inspects the title. *)
Definition buildWeb (io : option string) (md : Metadata) (chapters : list (string * string))
  : BuildResult :=
  match io with
  | Some e => Aborted e
  | None =>
      Built (("docs/index.html", match title md with Some t => t | None => "" end)
             :: map (fun ch =>
                       (String.append "docs/chapters/" (fst ch),
                        String.append (snd ch) (String.append " - " (Pdf.js_str (title md)))))
                  chapters)
  end.

End Validate.

(** ** Author objects and the About page ([scripts/author-utils.js]) *)
Module AuthorObjects.
Import Js Authors.

(** An entry of [metadata.authors] with every field [getAuthorObjects]
    and [generateAboutAuthors] read; [None] is an absent field. *)
Record AuthorObj := mkAuthorObj {
  oname : string;
  bio : option string;
  email : option string;
  twitter : option string;
  website : option string;
  linkedin : option string;
  github : option string
}.

(** [metadata.authors && Array.isArray(metadata.authors)
     && metadata.authors.length > 0] *)
Definition objs_list (authors : option (list AuthorObj)) : option (list AuthorObj) :=
  match authors with
  | Some (a :: l) => Some (a :: l)
  | _ => None
  end.

(** [s.startsWith('@')] *)
Definition starts_with_at (s : string) : bool :=
  match s with
  | String c _ => Ascii.eqb c "@"%char
  | EmptyString => false
  end.

(** [s.substring(1)] *)
Definition substring1 (s : string) : string :=
  match s with
  | String _ r => r
  | EmptyString => EmptyString
  end.

(** The copy [{ ...author }] of one entry, with one leading ['@'] of a
    truthy twitter handle removed. *)
Definition process_author (a : AuthorObj) : AuthorObj :=
  match twitter a with
  | Some t =>
      if truthy (Some t) && starts_with_at t
      then {| oname := oname a; bio := bio a; email := email a;
              twitter := Some (substring1 t); website := website a;
              linkedin := linkedin a; github := github a |}
      else a
  | None => a
  end.

(** [getAuthorObjects], on the [author] and [authors] fields of the
    metadata. *)
Definition getAuthorObjects (author : option string)
  (authors : option (list AuthorObj)) : list AuthorObj :=
  match objs_list authors with
  | Some l => map process_author l
  | None =>
      if truthy author then
        match author with
        | Some s =>
            let names :=
              map string_of_list_ascii
                (filter nonempty (map trim (regex_split (list_ascii_of_string s)))) in
            map (fun n => mkAuthorObj n (Some "") (Some "") (Some "") (Some "")
                            (Some "") (Some "")) names
        | None => []
        end
      else []
  end.

(** The [contacts] of one author, in the order they are pushed. *)
Definition contacts (a : AuthorObj) : list string :=
  (if truthy (website a)
   then [Pdf.cat ["[🌐 Website]("; Pdf.js_str (website a); ")"]] else [])
  ++ (if truthy (linkedin a)
      then [Pdf.cat ["[👔 LinkedIn]("; Pdf.js_str (linkedin a); ")"]] else [])
  ++ (if truthy (github a)
      then [Pdf.cat ["[📦 GitHub]("; Pdf.js_str (github a); ")"]] else [])
  ++ (if truthy (twitter a) then
        let t := Pdf.js_str (twitter a) in
        let twitterUrl :=
          if starts_with_at t
          then String.append "https://twitter.com/" (substring1 t)
          else String.append "https://twitter.com/" t in
        [Pdf.cat ["[🐦 Twitter]("; twitterUrl; ")"]]
      else [])
  ++ (if truthy (email a)
      then [Pdf.cat ["[📧 Email](mailto:"; Pdf.js_str (email a); ")"]] else []).

(** [`${author.bio || `${author.name} is...`}`] *)
Definition bio_text (a : AuthorObj) : string :=
  Pdf.js_or (bio a) (String.append (oname a) " is...").

(** The [forEach] of the multi-author branch: [n] is [authors.length],
    [index] the position of the head of [l]. *)
Fixpoint about_loop (n index : nat) (l : list AuthorObj) (content : string) : string :=
  match l with
  | [] => content
  | a :: r =>
      let content := Pdf.cat [content; "## "; oname a; Pdf.nl; Pdf.nl] in
      let content := Pdf.cat [content; bio_text a; Pdf.nl; Pdf.nl] in
      let cs := contacts a in
      let content :=
        if Nat.ltb 0 (List.length cs)
        then Pdf.cat [content; "Contact: "; join " • " cs; Pdf.nl; Pdf.nl]
        else content in
      let content :=
        if Nat.ltb index (n - 1) then Pdf.cat [content; "---"; Pdf.nl; Pdf.nl]
        else content in
      about_loop n (S index) r content
  end.

(** [generateAboutAuthors]; the two [authors.length] tests are the
    first two cases of the match. *)
Definition generateAboutAuthors (author : option string)
  (authors : option (list AuthorObj)) : string :=
  let objs := getAuthorObjects author authors in
  match objs with
  | [] => Pdf.cat ["# About the Author"; Pdf.nl; Pdf.nl; "Add your biography here."]
  | [a] => Pdf.cat ["# About the Author"; Pdf.nl; Pdf.nl; bio_text a; Pdf.nl; Pdf.nl;
                    "Add your biography here."]
  | _ => about_loop (List.length objs) 0 objs
           (Pdf.cat ["# About the Authors"; Pdf.nl; Pdf.nl])
  end.

End AuthorObjects.

(** ** Leanpub manuscript ([buildLeanpub], [createLeanpubFiles]) *)
Module Leanpub.
Import Js Authors AuthorObjects.

(** [markdownFiles.join('\n')] *)
Definition bookTxt (markdownFiles : list string) : string := join Pdf.nl markdownFiles.

(** [markdownFiles.slice(0, 2).join('\n')] *)
Definition sampleTxt (markdownFiles : list string) : string :=
  join Pdf.nl (firstn 2 markdownFiles).

Definition dedication : string :=
  Pdf.cat ["{frontmatter}"; Pdf.nl; Pdf.nl; "# Dedication"; Pdf.nl; Pdf.nl;
           "This book is dedicated to..."; Pdf.nl; Pdf.nl; "{mainmatter}"].

(** The new [Book.txt] from the one read back: its non-blank lines
    between the dedication and the about page. *)
Definition fullBookTxt (currentBookTxt : string) : string :=
  let chaptersArray :=
    filter (fun line => nonempty (trim (list_ascii_of_string line)))
      (Pdf.split_lines currentBookTxt) in
  join Pdf.nl (["dedication.txt"] ++ chaptersArray ++ ["about-author.txt"]).

(** [createLeanpubFiles]: the files it writes, in order. *)
Definition createLeanpubFiles (md : Metadata) (objs : option (list AuthorObj))
  (currentBookTxt : string) : list (string * string) :=
  (if truthy (subtitle md)
   then [("manuscript/subtitle.txt", Pdf.js_str (subtitle md))] else [])
  ++ [("manuscript/dedication.txt", dedication);
      ("manuscript/about-author.txt",
       Pdf.cat ["{backmatter}"; Pdf.nl; Pdf.nl; generateAboutAuthors (author md) objs]);
      ("manuscript/Book.txt", fullBookTxt currentBookTxt)].

(** The text writes of [buildLeanpub] for the sorted chapter names
    [markdownFiles] ([objs] is [metadata.authors]); [createLeanpubFiles]
    reads back the [Book.txt] written first. The chapter and image
    copies are not modelled. *)
Definition buildLeanpub (md : Metadata) (objs : option (list AuthorObj))
  (markdownFiles : list string) : list (string * string) :=
  [("manuscript/Book.txt", bookTxt markdownFiles);
   ("manuscript/Sample.txt", sampleTxt markdownFiles)]
  ++ createLeanpubFiles md objs (bookTxt markdownFiles).

(** The content of [path] after the writes: the last write wins. *)
Definition final_file (path : string) (writes : list (string * string)) : option string :=
  fold_left (fun acc w => if String.eqb (fst w) path then Some (snd w) else acc)
    writes None.

End Leanpub.

(** ** Runtime table of contents: ids, position, active item, sidebar
    state ([initTableOfContents]) *)
Module TocRuntime.
Import Js.

(** A heading element: its tag name ([H1] .. [H6]), its [id] ([""] when
    it has none) and its [offsetTop] in whole pixels. *)
Record Heading := mkHeading { tagName : string; hid : string; offsetTop : Z }.

(** [heading.id || `heading-${heading.tagName.toLowerCase()}-${index}`] *)
Definition heading_id (h : Heading) (index : nat) : string :=
  if truthy (Some (hid h)) then hid h
  else Pdf.cat ["heading-";
                string_of_list_ascii (map Anchors.lower (list_ascii_of_string (tagName h)));
                "-"; nat_to_string index].

(** The [id] of every heading once the TOC is built, in document
    order; the TOC links carry the same values in [data-heading-id]. *)
Definition toc_ids (hs : list Heading) : list string :=
  map (fun p => heading_id (snd p) (fst p)) (combine (seq 0 (List.length hs)) hs).

(** [adjustTocPosition]: [nav] and [header] are the [offsetHeight] of
    the elements when present. [None] when nothing is changed;
    otherwise [topPosition] and the three style values
    ([.toc-content] taken present). *)
Definition adjustTocPosition (nav header : option Z) (innerWidth scrollTop : Z)
  : option (Z * string * string * string) :=
  match nav with
  | Some navHeight =>
      if Z.ltb 768 innerWidth then
        let headerHeight := match header with Some h => h | None => 0%Z end in
        let topPosition :=
          if Z.leb scrollTop headerHeight then (headerHeight + navHeight + 20)%Z
          else (navHeight + 20)%Z in
        let topPosition := Z.max topPosition (navHeight + 20) in
        let topPosition := Z.max topPosition 80 in
        Some (topPosition,
              String.append (Grouping.Z_to_string topPosition) "px",
              Pdf.cat ["calc(100vh - "; Grouping.Z_to_string (topPosition + 40); "px)"],
              Pdf.cat ["calc(100vh - "; Grouping.Z_to_string (topPosition + 120); "px)"])
      else None
  | None => None
  end.

(** The [headings.forEach] of [updateActiveTocItem]: [closest] is
    [closestDistance], [None] standing for [Infinity]; [i] is the
    position of the head of [hs]. *)
Fixpoint scan (scrollPosition : Z) (hs : list Heading) (i : nat)
  (active : option nat) (closest : option Z) : option nat :=
  match hs with
  | [] => active
  | h :: r =>
      let distance := Z.abs (scrollPosition - offsetTop h) in
      if Z.leb (offsetTop h) scrollPosition
         && match closest with None => true | Some c => Z.ltb distance c end
      then scan scrollPosition r (S i) (Some i) (Some distance)
      else scan scrollPosition r (S i) active closest
  end.

(** The position of [activeHeading] after the fallback to the first
    heading. *)
Definition active_heading (scrollY : Z) (hs : list Heading) : option nat :=
  let scrollPosition := (scrollY + 120)%Z in
  let activeHeading := scan scrollPosition hs 0 None None in
  if match activeHeading with None => true | Some _ => false end
     || Z.ltb scrollPosition 200
  then (if Nat.ltb 0 (List.length hs) then Some 0 else activeHeading)
  else activeHeading.

(** [updateActiveTocItem]: whether each TOC link (given by its
    [data-heading-id]) ends with the [active] class. *)
Definition updateActiveTocItem (scrollY : Z) (hs : list Heading)
  (linkIds : list string) : list bool :=
  match active_heading scrollY hs with
  | Some i => map (fun l => String.eqb l (nth i (toc_ids hs) EmptyString)) linkIds
  | None => map (fun _ => false) linkIds
  end.

(** The label of the collapse button, as the source file has it. *)
Definition minus_label : string := "âˆ’".

(** The state the sidebar handlers change. [contentDisplay] is the
    inline [display] of [.toc-content] ([""] before it is set). *)
Record SidebarState := mkSidebarState {
  isCollapsed : bool;
  contentDisplay : string;
  collapseText : string;
  collapsedClass : bool;
  mobileActive : bool;
  tocMobileOpen : bool
}.

Definition initial_state : SidebarState :=
  mkSidebarState false "" minus_label false false false.

(** The events the handlers react to. [width] is [window.innerWidth];
    [onLink] says the click target is inside a [.toc-link];
    [inSidebar] and [inToggle] locate a document click. *)
Inductive Event :=
  | CollapseClick
  | ToggleClick
  | CloseClick
  | ListClick (onLink : bool) (width : Z)
  | KeyDown (isEscape : bool)
  | DocClick (width : Z) (inSidebar inToggle : bool).

Definition close (s : SidebarState) : SidebarState :=
  mkSidebarState (isCollapsed s) (contentDisplay s) (collapseText s)
    (collapsedClass s) false false.

Definition step (s : SidebarState) (e : Event) : SidebarState :=
  match e with
  | CollapseClick =>
      let c := negb (isCollapsed s) in
      mkSidebarState c (if c then "none" else "block") (if c then "+" else minus_label)
        c (mobileActive s) (tocMobileOpen s)
  | ToggleClick =>
      mkSidebarState (isCollapsed s) (contentDisplay s) (collapseText s)
        (collapsedClass s) (negb (mobileActive s)) (negb (tocMobileOpen s))
  | CloseClick => close s
  | ListClick onLink width =>
      if onLink && Z.leb width 768 then close s else s
  | KeyDown isEscape => if isEscape then close s else s
  | DocClick width inSidebar inToggle =>
      if Z.leb width 768 && mobileActive s && negb inSidebar && negb inToggle
      then close s else s
  end.

Definition run_events (es : list Event) : SidebarState :=
  fold_left step es initial_state.

End TocRuntime.

(** ** The chapter title expression [/^#\s+(.+)$/m] ([processChapter],
    [extractTitle], [validateChapters]) *)
Module Headings.
Import Js.

(** Line terminators of JS regular expressions, on bytes. *)
Definition is_term (c : ascii) : bool :=
  Nat.eqb (nat_of_ascii c) 10 || Nat.eqb (nat_of_ascii c) 13.

(** The rest of the expression after the ['#'] at a line start. [\s+]
    is greedy: the lengths [k] tried are the length of the whitespace
    run [r] starts with, then shorter ones. [.+] is greedy and its
    maximal run of non-terminators always ends where [$] holds, so the
    first [k] after which a non-terminator follows succeeds, with that
    run as the group. *)
Fixpoint try_ws (k : nat) (r : list ascii) : option (list ascii) :=
  match k with
  | O => None
  | S k' =>
      match fst (Pdf.span (fun c => negb (is_term c)) (skipn k r)) with
      | [] => try_ws k' r
      | g => Some g
      end
  end.

Definition match_heading (s : list ascii) : option (list ascii) :=
  match s with
  | "#"%char :: r => try_ws (List.length (fst (Pdf.span is_ws r))) r
  | _ => None
  end.

(** The group of the leftmost match; [^] holds at the start of the
    input and after each line terminator. *)
Fixpoint first_heading (at_start : bool) (s : list ascii) : option (list ascii) :=
  match (if at_start then match_heading s else None) with
  | Some g => Some g
  | None =>
      match s with
      | [] => None
      | c :: r => first_heading (is_term c) r
      end
  end.

(** [content.match(/^#\s+(.+)$/m)], as its group. *)
Definition title_match (content : string) : option string :=
  option_map string_of_list_ascii (first_heading true (list_ascii_of_string content)).

(** [extractTitle] of [scripts/word-count.js] *)
Definition extractTitle (content : string) : string :=
  match title_match content with Some t => t | None => "Untitled" end.

(** The [title] of [processChapter] of [buildWeb]. *)
Definition chapter_title (filename content : string) : string :=
  match title_match content with
  | Some t => t
  | None => WebNav.replace_first ".md" "" filename
  end.

End Headings.

(** ** Chapter warnings of the validator ([validateChapters]) *)
Module ValidateChapters.
Import Js.

(** [s.split(/\s+/)]: each leftmost match is a maximal whitespace run
    (the quantifier is greedy), so the pieces are the text between
    maximal runs; [in_run] says the previous character was in a run.
    An empty input gives one empty piece. *)
Fixpoint split_ws_go (cur : list ascii) (in_run : bool) (s : list ascii)
  : list (list ascii) :=
  match s with
  | [] => [cur]
  | c :: r =>
      if is_ws c then
        if in_run then split_ws_go [] true r else cur :: split_ws_go [] true r
      else split_ws_go (cur ++ [c]) false r
  end.

Definition split_ws (s : string) : list string :=
  map string_of_list_ascii (split_ws_go [] false (list_ascii_of_string s)).

(** [/^\d{2}-/.test(file)] *)
Definition proper_name (f : string) : bool :=
  match list_ascii_of_string f with
  | a :: b :: c :: _ => Grouping.is_digit a && Grouping.is_digit b && Ascii.eqb c "-"%char
  | _ => false
  end.

(** The warnings [validateChapters] pushes for the sorted chapter names
    [markdownFiles], [content] giving each file's text. The title test
    [/^#\s+.+$/m] matches exactly when the grouped expression does. With
    no chapter it pushes the error ["No chapter files found in
    src/chapters/"] and no warning; the image-reference errors are not
    modelled. *)
Definition chapter_warnings (markdownFiles : list string) (content : string -> string)
  : list string :=
  match markdownFiles with
  | [] => []
  | _ =>
      (if forallb proper_name markdownFiles then []
       else ["Chapter files should follow naming convention: 01-chapter-name.md"])
      ++ flat_map (fun file =>
           let c := content file in
           (if match Headings.title_match c with Some _ => false | None => true end
            then [Pdf.cat ["Chapter "; file; " missing main title (# heading)"]] else [])
           ++ (let wordCount := List.length (split_ws c) in
               if Nat.ltb wordCount 100
               then [Pdf.cat ["Chapter "; file; " is very short (";
                              nat_to_string wordCount; " words)"]]
               else []))
         markdownFiles
  end.

End ValidateChapters.

(** * Proofs *)

(** ** Whitespace trimming *)
Module JsFacts.
Import Js.

Lemma forallb_rev {A} (f : A -> bool) (l : list A) :
  forallb f (rev l) = forallb f l.
Proof.
  induction l as [|x l IH]; simpl; [reflexivity|].
  rewrite forallb_app, IH; simpl.
  destruct (f x), (forallb f l); reflexivity.
Qed.

Lemma drop_ws_app (a b : list ascii) :
  drop_ws (a ++ b) = if forallb is_ws a then drop_ws b else drop_ws a ++ b.
Proof.
  induction a as [|c a IH]; simpl; [reflexivity|].
  destruct (is_ws c); simpl; [exact IH | reflexivity].
Qed.

Lemma drop_ws_all (a : list ascii) :
  forallb is_ws a = true -> drop_ws a = [].
Proof.
  induction a as [|c a IH]; simpl; [reflexivity|].
  destruct (is_ws c); simpl; [exact IH | discriminate].
Qed.

Lemma drop_ws_prefix (s : list ascii) :
  exists w, forallb is_ws w = true /\ s = w ++ drop_ws s.
Proof.
  induction s as [|c s IH]; simpl.
  - exists []; split; reflexivity.
  - case_eq (is_ws c); intro Hc.
    + destruct IH as [w [Hw Hs]].
      exists (c :: w); simpl; rewrite Hc, Hw; split; [reflexivity|].
      rewrite <- Hs; reflexivity.
    + exists []; split; reflexivity.
Qed.

(** Whitespace on either side of a piece does not survive [trim]. *)
Lemma trim_around (w x w' : list ascii) :
  forallb is_ws w = true -> forallb is_ws w' = true ->
  trim (w ++ x ++ w') = trim x.
Proof.
  intros Hw Hw'. unfold trim.
  rewrite drop_ws_app, Hw, (drop_ws_app x w').
  case_eq (forallb is_ws x); intro Hx.
  - rewrite (drop_ws_all w' Hw'), (drop_ws_all x Hx); reflexivity.
  - rewrite rev_app_distr, drop_ws_app, forallb_rev, Hw'. reflexivity.
Qed.

End JsFacts.

(** ** Author utilities *)
Module AuthorsFacts.
Import Js JsFacts Authors.

Lemma ws_not_sep (c : ascii) : is_ws c = true -> is_sep c = false.
Proof.
  intro H. unfold is_sep.
  case_eq (Ascii.eqb c "&"%char); intro E1;
    [apply Ascii.eqb_eq in E1; subst; discriminate|].
  case_eq (Ascii.eqb c ","%char); intro E2;
    [apply Ascii.eqb_eq in E2; subst; discriminate|].
  reflexivity.
Qed.

Lemma all_ws_no_sep (w : list ascii) :
  forallb is_ws w = true -> forallb (fun c => negb (is_sep c)) w = true.
Proof.
  induction w as [|c w IH]; simpl; [reflexivity|].
  intro H. apply andb_prop in H as [H1 H2].
  rewrite (ws_not_sep c H1), IH by exact H2. reflexivity.
Qed.

Lemma split_on_seps_app (acc x y : list ascii) :
  forallb (fun c => negb (is_sep c)) x = true ->
  split_on_seps acc (x ++ y) = split_on_seps (acc ++ x) y.
Proof.
  revert acc. induction x as [|c x IH]; intros acc H; simpl.
  - rewrite app_nil_r. reflexivity.
  - simpl in H. apply andb_prop in H as [H1 H2].
    destruct (is_sep c); [discriminate|].
    rewrite IH by exact H2. rewrite <- app_assoc. reflexivity.
Qed.

Lemma match_at_some (s rest : list ascii) :
  match_at s = Some rest ->
  exists w1 c w2, forallb is_ws w1 = true /\ forallb is_ws w2 = true /\
    is_sep c = true /\ s = w1 ++ c :: w2 ++ rest.
Proof.
  unfold match_at. destruct (drop_ws_prefix s) as [w1 [Hw1 Hs]].
  destruct (drop_ws s) as [|c r] eqn:E; [discriminate|].
  case_eq (is_sep c); intro Hc; [|discriminate].
  intro Hr. injection Hr as Hr.
  destruct (drop_ws_prefix r) as [w2 [Hw2 Hr2]].
  exists w1, c, w2. repeat split; try assumption.
  rewrite Hs, <- Hr, <- Hr2. reflexivity.
Qed.

Lemma match_at_none (c : ascii) (r : list ascii) :
  match_at (c :: r) = None -> is_sep c = false.
Proof.
  unfold match_at. simpl. case_eq (is_sep c); intro Hc; [|reflexivity].
  case_eq (is_ws c); intro Hw.
  - rewrite (ws_not_sep c Hw) in Hc. discriminate.
  - rewrite Hc. discriminate.
Qed.

(** The pieces cut by the regular expression differ from the pieces cut
    at the bare separators only by whitespace at their ends. *)
Lemma split_go_trim (fuel : nat) (s cur w : list ascii) :
  List.length s < fuel -> forallb is_ws w = true ->
  map trim (split_go fuel cur s) = map trim (split_on_seps (w ++ cur) s).
Proof.
  revert s cur w. induction fuel as [|f IH]; intros s cur w Hlen Hw; [lia|].
  destruct s as [|c r].
  - simpl. f_equal. rewrite <- (app_nil_r cur) at 2.
    rewrite (trim_around w cur [] Hw eq_refl). reflexivity.
  - case_eq (match_at (c :: r)).
    + intros rest E.
      assert (Hstep : split_go (S f) cur (c :: r) = cur :: split_go f [] rest)
        by (simpl; rewrite E; reflexivity).
      rewrite Hstep.
      destruct (match_at_some _ _ E) as [w1 [c' [w2 [Hw1 [Hw2 [Hc' Hs]]]]]].
      rewrite Hs, split_on_seps_app by (apply all_ws_no_sep; exact Hw1).
      simpl. rewrite Hc'. simpl.
      rewrite <- app_assoc, (trim_around w cur w1 Hw Hw1).
      f_equal.
      rewrite split_on_seps_app by (apply all_ws_no_sep; exact Hw2).
      simpl. rewrite <- (app_nil_r w2).
      apply IH; [|exact Hw2].
      assert (Hl : List.length (c :: r) = List.length (w1 ++ c' :: w2 ++ rest))
        by (rewrite Hs; reflexivity).
      rewrite !length_app in Hl. simpl in Hl, Hlen. rewrite length_app in Hl. lia.
    + intro E. pose proof (match_at_none c r E) as Hc.
      assert (Hstep : split_go (S f) cur (c :: r) = split_go f (cur ++ [c]) r)
        by (simpl; rewrite E; reflexivity).
      rewrite Hstep. simpl. rewrite Hc.
      rewrite <- app_assoc. apply IH; [simpl in Hlen; lia | exact Hw].
Qed.

Lemma regex_split_trim (s : list ascii) :
  map trim (regex_split s) = map trim (split_on_seps [] s).
Proof.
  unfold regex_split. apply (split_go_trim _ s [] []); [lia | reflexivity].
Qed.


Lemma removelast_snoc {A} (l : list A) (z : A) : removelast (l ++ [z]) = l.
Proof.
  induction l as [|x l IH]; [reflexivity|].
  simpl. rewrite IH. destruct (l ++ [z]) eqn:E; [destruct l; discriminate|].
  reflexivity.
Qed.

(** C3: the display string of a non-empty author list, written as
    [init ++ [z]]: the single name; ["A & B"]; or the names of [init]
    joined by [", "] followed by [" & "] and the last name. *)
Theorem getAuthorString_format (md : Metadata) (init : list Author) (z : Author)
  (H : authors md = Some (init ++ [z])) :
  getAuthorString md =
    match init with
    | [] => name z
    | [y] => String.append (name y) (String.append " & " (name z))
    | _ => String.append (join ", " (map name init))
             (String.append " & " (name z))
    end
  /\ getAuthorString (md_with None (Some [mkAuthor "Ada"])) = "Ada"
  /\ getAuthorString (md_with None (Some [mkAuthor "Ada"; mkAuthor "Lin"]))
     = "Ada & Lin"
  /\ getAuthorString
       (md_with None (Some [mkAuthor "Ada"; mkAuthor "Lin"; mkAuthor "Grace"]))
     = "Ada, Lin & Grace".
Proof.
  split; [|split; [reflexivity | split; reflexivity]].
  destruct init as [|y [|y' rest]];
    [unfold getAuthorString, authors_list; rewrite H; reflexivity
    |unfold getAuthorString, authors_list; rewrite H; reflexivity|].
  assert (Hl : authors_list md = Some ((y :: y' :: rest) ++ [z]))
    by (unfold authors_list; rewrite H; reflexivity).
  unfold getAuthorString. rewrite Hl. cbv zeta.
  assert (Hn : List.length (map name ((y :: y' :: rest) ++ [z]))
               = S (S (S (List.length rest))))
    by (rewrite length_map, length_app; simpl; rewrite Nat.add_1_r; reflexivity).
  rewrite Hn. simpl Nat.eqb. cbv iota.
  rewrite map_app. change (map name [z]) with [name z].
  rewrite removelast_snoc, last_last. reflexivity.
Qed.

Lemma getAuthorString_format_witness :
  authors (md_with None (Some [mkAuthor "Ada"; mkAuthor "Lin"; mkAuthor "Grace"]))
    = Some ([mkAuthor "Ada"; mkAuthor "Lin"] ++ [mkAuthor "Grace"])
  /\ getAuthorString
       (md_with None (Some [mkAuthor "Ada"; mkAuthor "Lin"; mkAuthor "Grace"]))
     = String.append (join ", " ["Ada"; "Lin"]) (String.append " & " "Grace").
Proof.
  split; [reflexivity|].
  exact (proj1 (getAuthorString_format
                  (md_with None (Some [mkAuthor "Ada"; mkAuthor "Lin"; mkAuthor "Grace"]))
                  [mkAuthor "Ada"; mkAuthor "Lin"] (mkAuthor "Grace") eq_refl)).
Defined.

(** C6: a non-empty [authors] array is authoritative; otherwise the
    legacy [author] string is split on [&] or [,], each piece trimmed,
    empty pieces dropped (no author string at all gives no names). *)
Theorem getAuthorArray_spec (md : Metadata) :
  getAuthorArray md =
    match authors md with
    | Some (a :: l) => map name (a :: l)
    | _ => match author md with
           | Some s => legacy_names_spec s
           | None => []
           end
    end.
Proof.
  unfold getAuthorArray, authors_list.
  destruct (authors md) as [[|a l]|]; [| reflexivity |];
  (destruct (author md) as [s|]; [|reflexivity]); simpl;
  (case_eq (String.eqb s EmptyString); intro Es; simpl;
   [ apply String.eqb_eq in Es; subst; reflexivity
   | unfold legacy_names_spec; rewrite regex_split_trim; reflexivity ]).
Qed.

(** C10: with no non-empty [authors] array and no (or an empty) [author]
    string, the display string is [""] and the name list is empty. *)
Theorem no_author_is_empty (md : Metadata)
  (Hl : authors md = None \/ authors md = Some [])
  (Ha : author md = None \/ author md = Some "") :
  getAuthorString md = "" /\ getAuthorArray md = [].
Proof.
  unfold getAuthorString, getAuthorArray, authors_list.
  destruct Hl as [Hl|Hl]; rewrite Hl;
  (destruct Ha as [Ha|Ha]; rewrite Ha; split; reflexivity).
Qed.

Lemma no_author_is_empty_witness :
  getAuthorString (md_with None (Some [])) = ""
  /\ getAuthorArray (md_with None (Some [])) = [].
Proof.
  apply no_author_is_empty; [right | left]; reflexivity.
Defined.

End AuthorsFacts.

Module TocFacts.
Import Toc.

Lemma length_upd (n v : nat) (l : list nat) : List.length (upd n v l) = List.length l.
Proof.
  revert n. induction l as [|x l IH]; intros [|n]; simpl; try rewrite IH; reflexivity.
Qed.

Lemma length_reset_loop (n i : nat) (ctr : list nat) :
  List.length (reset_loop n i ctr) = List.length ctr.
Proof.
  revert i ctr. induction n as [|n IH]; intros i ctr; simpl; [reflexivity|].
  rewrite IH. unfold set_counter. apply length_upd.
Qed.

Lemma length_process_heading (ctr : list nat) (L : nat) :
  List.length (process_heading ctr L) = List.length ctr.
Proof.
  unfold process_heading, set_counter. rewrite length_upd. apply length_reset_loop.
Qed.

Lemma length_run (hs : list nat) : List.length (run hs) = 6.
Proof.
  unfold run. assert (H : List.length init_counters = 6) by reflexivity.
  revert H. generalize init_counters.
  induction hs as [|h hs IH]; intros c Hc; simpl; [exact Hc|].
  apply IH. rewrite length_process_heading. exact Hc.
Qed.

Ltac level_cases i :=
  destruct i as [|[|[|[|[|[|[|i]]]]]]]; try lia.

(** One heading on a six-counter state: the effect of the update. *)
Lemma process_heading_effect (ctr : list nat) (L : nat) :
  List.length ctr = 6 -> 1 <= L <= 6 ->
  let c' := process_heading ctr L in
  (forall i, L < i <= 6 -> get_counter i c' = 0)
  /\ (forall i, 1 <= i < L -> get_counter i c' = get_counter i ctr)
  /\ get_counter L c' = S (get_counter L ctr)
  /\ List.length (numberPath c' L) = L.
Proof.
  intros Hlen HL.
  destruct ctr as [|a [|b [|c [|d [|e [|f [|g r]]]]]]]; try discriminate.
  level_cases L; cbv zeta;
    (split; [intros i Hi; level_cases i; reflexivity|]);
    (split; [intros i Hi; level_cases i; reflexivity|]);
    split; reflexivity.
Qed.

(** C1: after any sequence of headings [hs], a further heading of level
    [L] zeroes every counter deeper than [L], keeps every counter
    shallower than [L], increments the counter of level [L], and its
    number path has [L] components; [H1,H2,H2,H1,H3] are numbered
    [1], [1.1], [1.2], [2], [2.0.1]. *)
Theorem toc_counter_update (hs : list nat) (L : nat) (HL : 1 <= L <= 6) :
  let before := run hs in
  let after := run (hs ++ [L]) in
  (forall i, L < i <= 6 -> get_counter i after = 0)
  /\ (forall i, 1 <= i < L -> get_counter i after = get_counter i before)
  /\ get_counter L after = S (get_counter L before)
  /\ List.length (numberPath after L) = L
  /\ heading_numbers [1; 2; 2; 1; 3] = ["1"; "1.1"; "1.2"; "2"; "2.0.1"].
Proof.
  cbv zeta.
  assert (Hrun : run (hs ++ [L]) = process_heading (run hs) L)
    by (unfold run; rewrite fold_left_app; reflexivity).
  rewrite Hrun.
  destruct (process_heading_effect (run hs) L (length_run hs) HL)
    as [H1 [H2 [H3 H4]]].
  repeat split; [exact H1 | exact H2 | exact H3 | exact H4].
Qed.

Lemma toc_counter_update_witness :
  1 <= 3 <= 6 /\ get_counter 3 (run ([1; 2; 2; 1] ++ [3])) = S (get_counter 3 (run [1; 2; 2; 1])).
Proof.
  split; [lia|].
  exact (proj1 (proj2 (proj2 (toc_counter_update [1; 2; 2; 1] 3 ltac:(lia))))).
Defined.

End TocFacts.

Module AnchorsFacts.
Import Anchors.

Example anchors_ex :
  section_anchors ["Overview"; "What's Next?"; "Overview"]
  = ["overview"; "what-s-next"; "overview"].
Proof. reflexivity. Qed.

(** C2, as stated: anchors pairwise distinct within a chapter. Two
    sections titled [Overview] refute it. *)
Lemma anchors_unique_counterexample :
  ~ NoDup (section_anchors ["Overview"; "Overview"]).
Proof.
  vm_compute. intro H. inversion H as [|x l Hnotin Hnd].
  apply Hnotin. left. reflexivity.
Qed.

(** C2, as amended: the anchor of a section depends on its text only,
    with no disambiguation, so sections with equal text share their
    anchor; [Overview] twice gives [overview] twice. *)
Theorem anchors_follow_text (titles : list string) (i j : nat) (t : string)
  (Hi : nth_error titles i = Some t) (Hj : nth_error titles j = Some t) :
  nth_error (section_anchors titles) i = Some (anchor_of t)
  /\ nth_error (section_anchors titles) j = Some (anchor_of t)
  /\ section_anchors ["Overview"; "Overview"] = ["overview"; "overview"].
Proof.
  unfold section_anchors, sections_of. rewrite map_map, !nth_error_map, Hi, Hj.
  repeat split.
Qed.

Lemma anchors_follow_text_witness :
  nth_error (section_anchors ["Overview"; "Setup"; "Overview"]) 0
  = nth_error (section_anchors ["Overview"; "Setup"; "Overview"]) 2.
Proof.
  destruct (anchors_follow_text ["Overview"; "Setup"; "Overview"] 0 2 "Overview"
              eq_refl eq_refl) as [H0 [H2 _]].
  rewrite H0, H2. reflexivity.
Defined.

End AnchorsFacts.

Module CorpusFacts.
Import Corpus.

Example order_ex :
  web_chapter_files (map units ["02-b.md"; "img.png"; "01-a.md"; "10-c.md"])
  = map units ["01-a.md"; "02-b.md"; "10-c.md"].
Proof. reflexivity. Qed.

Lemma lex_leb_total (a b : FileName) : lex_leb a b = true \/ lex_leb b a = true.
Proof.
  revert b. induction a as [|x a IH]; intros [|y b]; simpl; auto.
  destruct (Nat.ltb x y) eqn:E1; [auto|].
  destruct (Nat.ltb y x) eqn:E2; [auto|].
  destruct (IH b) as [H|H]; [left|right]; exact H.
Qed.

Lemma lex_leb_antisym (a b : FileName) :
  lex_leb a b = true -> lex_leb b a = true -> a = b.
Proof.
  revert b. induction a as [|x a IH]; intros [|y b]; simpl; auto;
    try discriminate.
  destruct (Nat.ltb x y) eqn:E1, (Nat.ltb y x) eqn:E2;
    apply Nat.ltb_lt in E1 || apply Nat.ltb_ge in E1;
    apply Nat.ltb_lt in E2 || apply Nat.ltb_ge in E2;
    try lia; try discriminate.
  intros H1 H2. f_equal; [lia | apply IH; assumption].
Qed.

Lemma lex_leb_trans (a b c : FileName) :
  lex_leb a b = true -> lex_leb b c = true -> lex_leb a c = true.
Proof.
  revert b c. induction a as [|x a IH]; intros [|y b] [|z c]; simpl; auto;
    try discriminate.
  destruct (Nat.ltb x y) eqn:E1, (Nat.ltb y x) eqn:E2,
           (Nat.ltb y z) eqn:E3, (Nat.ltb z y) eqn:E4,
           (Nat.ltb x z) eqn:E5, (Nat.ltb z x) eqn:E6;
    repeat match goal with
           | H : Nat.ltb _ _ = true |- _ => apply Nat.ltb_lt in H
           | H : Nat.ltb _ _ = false |- _ => apply Nat.ltb_ge in H
           end;
    try lia; try discriminate; auto.
  apply IH.
Qed.

Lemma insert_comm (x y : FileName) (l : list FileName) :
  insert x (insert y l) = insert y (insert x l).
Proof.
  induction l as [|z l IH]; simpl.
  - destruct (lex_leb x y) eqn:Exy, (lex_leb y x) eqn:Eyx; try reflexivity.
    + rewrite (lex_leb_antisym x y Exy Eyx). reflexivity.
    + destruct (lex_leb_total x y); congruence.
  - destruct (lex_leb y z) eqn:Eyz, (lex_leb x z) eqn:Exz; simpl;
      rewrite ?Eyz, ?Exz.
    + destruct (lex_leb x y) eqn:Exy, (lex_leb y x) eqn:Eyx; simpl;
        rewrite ?Eyz, ?Exz; try reflexivity.
      * rewrite (lex_leb_antisym x y Exy Eyx). reflexivity.
      * destruct (lex_leb_total x y); congruence.
    + destruct (lex_leb x y) eqn:Exy; simpl; rewrite ?Exz; [|reflexivity].
      rewrite (lex_leb_trans x y z Exy Eyz) in Exz. discriminate.
    + destruct (lex_leb y x) eqn:Eyx; simpl; rewrite ?Eyz; [|reflexivity].
      rewrite (lex_leb_trans y x z Eyx Exz) in Eyz. discriminate.
    + rewrite IH. reflexivity.
Qed.

Lemma sort_perm (l1 l2 : list FileName) : Permutation l1 l2 -> sort l1 = sort l2.
Proof.
  induction 1 as [| x l1 l2 _ IH | x y l | l1 l2 l3 _ IH1 _ IH2]; simpl.
  - reflexivity.
  - rewrite IH. reflexivity.
  - apply insert_comm.
  - congruence.
Qed.

Lemma filter_perm {A} (f : A -> bool) (l1 l2 : list A) :
  Permutation l1 l2 -> Permutation (filter f l1) (filter f l2).
Proof.
  induction 1 as [| x l1 l2 _ IH | x y l | l1 l2 l3 _ IH1 _ IH2]; simpl.
  - constructor.
  - destruct (f x); [constructor|]; exact IH.
  - destruct (f x), (f y); try constructor; reflexivity.
  - eapply perm_trans; eassumption.
Qed.

(** C4: the chapter sequence of every target depends on the set of
    file names only, not on the order [readdir] lists them in. *)
Theorem chapter_order_listing_invariant (listing1 listing2 : list FileName)
  (Hperm : Permutation listing1 listing2) :
  web_chapter_files listing1 = web_chapter_files listing2
  /\ kindle_chapter_files listing1 = kindle_chapter_files listing2
  /\ pdf_chapter_files listing1 = pdf_chapter_files listing2.
Proof.
  assert (H : markdownFiles listing1 = markdownFiles listing2)
    by (apply sort_perm, filter_perm, Hperm).
  unfold web_chapter_files, kindle_chapter_files, pdf_chapter_files.
  rewrite H. repeat split.
Qed.

Lemma chapter_order_listing_invariant_witness :
  Permutation (map units ["02-b.md"; "01-a.md"; "x.txt"])
              (map units ["x.txt"; "01-a.md"; "02-b.md"])
  /\ web_chapter_files (map units ["02-b.md"; "01-a.md"; "x.txt"])
     = web_chapter_files (map units ["x.txt"; "01-a.md"; "02-b.md"]).
Proof.
  assert (Hp : Permutation (map units ["02-b.md"; "01-a.md"; "x.txt"])
                           (map units ["x.txt"; "01-a.md"; "02-b.md"])).
  { simpl. eapply perm_trans; [apply perm_swap|].
    eapply perm_trans; [apply perm_skip, perm_swap|].
    apply perm_swap. }
  split; [exact Hp|].
  exact (proj1 (chapter_order_listing_invariant _ _ Hp)).
Defined.

End CorpusFacts.

Module WebNavFacts.
Import WebNav.

Example web_pages_ex :
  map snd (web_pages ["01-a.md"; "02-b.md"; "03-c.md"])
  = [(None, Some (mkChapter "02-b.html" "02-b"));
     (Some (mkChapter "01-a.html" "01-a"), Some (mkChapter "03-c.html" "03-c"));
     (Some (mkChapter "02-b.html" "02-b"), None)].
Proof. reflexivity. Qed.

Lemma find_index_nodup (l : list Chapter) (i : nat) (c : Chapter) :
  NoDup (map slug l) -> nth_error l i = Some c ->
  find_index (fun x => String.eqb (slug x) (slug c)) l = Some i.
Proof.
  revert i. induction l as [|x l IH]; intros i Hnd Hi; [destruct i; discriminate|].
  simpl in Hnd. inversion Hnd as [|? ? Hnotin Hnd']; subst.
  destruct i as [|i]; simpl in Hi |- *.
  - injection Hi as <-. rewrite String.eqb_refl. reflexivity.
  - case_eq (String.eqb (slug x) (slug c)); intro E.
    + apply String.eqb_eq in E. exfalso. apply Hnotin. rewrite E.
      apply in_map, (nth_error_In l i Hi).
    + rewrite (IH i Hnd' Hi). reflexivity.
Qed.

(** When the slugs of the chapters are pairwise distinct, the chapter at
    position [i] links to positions [i - 1] and [i + 1], and to nothing
    past either end. *)
Lemma chapter_links_distinct_slugs (chs : list Chapter) (i : nat) (c : Chapter) :
  NoDup (map slug chs) -> nth_error chs i = Some c ->
  chapter_links c chs =
    (match i with O => None | S k => nth_error chs k end,
     nth_error chs (S i)).
Proof.
  intros Hnd Hi. unfold chapter_links, findIndex.
  rewrite (find_index_nodup chs i c Hnd Hi).
  assert (Hlt : i < List.length chs)
    by (apply nth_error_Some; rewrite Hi; discriminate).
  f_equal.
  - destruct i as [|k]; [reflexivity|].
    replace (Z.ltb 0 (Z.of_nat (S k))) with true by (symmetry; apply Z.ltb_lt; lia).
    f_equal. lia.
  - destruct (Z.ltb (Z.of_nat i) (Z.of_nat (List.length chs) - 1)) eqn:E.
    + apply Z.ltb_lt in E. f_equal. lia.
    + apply Z.ltb_ge in E. symmetry. apply nth_error_None. lia.
Qed.

(** C5: the file names [a.mdb.md] and [ab.md.md] end in [.md] and are
    listed in this order by [.sort()]; [replace('.md', '')] gives both
    the slug [ab.md], [findIndex] then finds the first chapter for
    both, and the last chapter links to itself as its next chapter
    and to nothing as its previous one. *)
Theorem web_links_slug_collision :
  Corpus.markdownFiles (map Corpus.units ["ab.md.md"; "a.mdb.md"])
    = map Corpus.units ["a.mdb.md"; "ab.md.md"]
  /\ web_pages ["a.mdb.md"; "ab.md.md"]
    = [(mkChapter "a.htmlb.md" "ab.md",
        (None, Some (mkChapter "ab.html.md" "ab.md")));
       (mkChapter "ab.html.md" "ab.md",
        (None, Some (mkChapter "ab.html.md" "ab.md")))].
Proof. split; vm_compute; reflexivity. Qed.

End WebNavFacts.

Module PdfFacts.
Import Authors Pdf.

Example images_ex :
  processImagePaths "See ![Fig](../images/a.png) and ![B](src/images/b.jpg)."
  = "See ![Fig](images/a.png) and ![B](images/b.jpg).".
Proof. vm_compute. reflexivity. Qed.

Definition md_titled (t : string) : Metadata :=
  mkMetadata (Some t) None None None None None (Some "Ada") None None None.

Example manuscript_ex :
  combined_manuscript (md_titled "Book") "10/15/2026" ["# One"; "# Two"]
  = cat [pdf_header (md_titled "Book") "10/15/2026";
         "# One"; nl; nl; page_break; "# Two"; nl; nl].
Proof. vm_compute. reflexivity. Qed.

(** C7: the break is placed by testing whether the text so far contains
    ["# "], not by the chapter position. A title containing ["# "] puts
    a break before the first chapter; a first chapter without ["# "]
    leaves no break between the first and the second chapter. *)
Theorem pdf_breaks_follow_text :
  combined_manuscript (md_titled "C# in Depth") "10/15/2026" ["# One"; "# Two"]
  = cat [pdf_header (md_titled "C# in Depth") "10/15/2026";
         page_break; "# One"; nl; nl; page_break; "# Two"; nl; nl]
  /\ combined_manuscript (md_titled "Book") "10/15/2026" ["Preface text."; "# Two"]
  = cat [pdf_header (md_titled "Book") "10/15/2026";
         "Preface text."; nl; nl; "# Two"; nl; nl].
Proof. split; vm_compute; reflexivity. Qed.

End PdfFacts.

Module GroupingFacts.
Import Grouping.

Example prefix_ex :
  map extractChapterPrefix ["Part 2: Tools"; "chapter 12"; "Getting Started"; "Chapter 0"]
  = ["Part 2"; "Chapters 11-15"; "Chapters"; "Chapters -4-0"].
Proof. vm_compute. reflexivity. Qed.

Lemma count_groups (gs : list (string * list nat)) :
  List.length (filter is_group
    (map (fun g => if Nat.ltb 1 (List.length (snd g))
                   then Group (fst g) (snd g) else Flat (hd 0 (snd g))) gs))
  = List.length (filter (fun g => Nat.ltb 1 (List.length (snd g))) gs).
Proof.
  induction gs as [|g gs IH]; simpl; [reflexivity|].
  destruct (Nat.ltb 1 (List.length (snd g))); simpl; rewrite IH; reflexivity.
Qed.

(** C8: the 25 titles [Chapter 1] .. [Chapter 25] are grouped into five
    groups of five consecutive chapters; in general the container is
    regrouped only when more than one group has several items, every
    group node then has at least two items (single items stay flat),
    and otherwise the flat list is left as it is. *)
Theorem chapter_grouping (titles : list string) :
  initChapterGrouping (chapter_titles 25)
  = Some [Group "Chapters 1-5" [0; 1; 2; 3; 4];
          Group "Chapters 6-10" [5; 6; 7; 8; 9];
          Group "Chapters 11-15" [10; 11; 12; 13; 14];
          Group "Chapters 16-20" [15; 16; 17; 18; 19];
          Group "Chapters 21-25" [20; 21; 22; 23; 24]]
  /\ match groupChaptersByPrefix titles with
     | Some nodes =>
         1 < List.length (filter is_group nodes)
         /\ (forall h items, In (Group h items) nodes -> 1 < List.length items)
     | None =>
         List.length (filter (fun g => Nat.ltb 1 (List.length (snd g)))
                        (build_groups titles)) <= 1
     end.
Proof.
  split; [vm_compute; reflexivity|].
  unfold groupChaptersByPrefix.
  destruct (Nat.ltb 1 (List.length (filter (fun g => Nat.ltb 1 (List.length (snd g)))
                                      (build_groups titles)))) eqn:E.
  - apply Nat.ltb_lt in E. split.
    + rewrite count_groups. exact E.
    + intros h items Hin. apply in_map_iff in Hin as [g [Hg _]].
      destruct (Nat.ltb 1 (List.length (snd g))) eqn:Eg; [|discriminate].
      injection Hg as _ <-. apply Nat.ltb_lt. exact Eg.
  - apply Nat.ltb_ge in E. exact E.
Qed.

End GroupingFacts.

Module ValidateFacts.
Import Js Authors Validate.

Lemma str_app_assoc (a b c : string) :
  String.append (String.append a b) c = String.append a (String.append b c).
Proof. induction a as [|x a IH]; simpl; [reflexivity | rewrite IH; reflexivity]. Qed.

Definition md_untitled : Metadata :=
  mkMetadata None None (Some "About") (Some "2026") None None (Some "Ada") None None None.

Lemma in_errs_seq_out (e : string) (o1 o2 : Out) :
  In e (errs o1) -> In e (errs (seq_out o1 o2)).
Proof.
  unfold seq_out. destruct (thrown o1); [exact id|]. simpl. intro H. apply in_or_app. left. exact H.
Qed.

Lemma validate_fail_of_error (cwd : string) (exists_path : string -> bool)
  (dir : list string) (doc : string + YVal) (content : list string) (e : string) :
  In e (fst (validateMetadata cwd exists_path doc)) ->
  validate cwd exists_path dir (Some doc) content = ExitFail.
Proof.
  intro H. unfold validate.
  destruct (dir ++ fst (validateMetadata cwd exists_path doc) ++ content) eqn:E; [|reflexivity].
  apply app_eq_nil in E as [_ E]. apply app_eq_nil in E as [E _].
  rewrite E in H. destruct H.
Qed.

(** C9, as stated: a record without title makes assembly abort. The web
    build does not: when its file operations succeed it writes its
    pages, with the title rendered as [undefined] in the chapter page
    titles. *)
Lemma missing_title_aborts_counterexample :
  buildWeb None md_untitled [("01-intro.html", "Introduction")]
  = Built [("docs/index.html", "");
           ("docs/chapters/01-intro.html", "Introduction - undefined")]
  /\ (forall msg, buildWeb None md_untitled [("01-intro.html", "Introduction")]
                  <> Aborted msg).
Proof. split; [reflexivity | intros msg H; discriminate H]. Qed.

Lemma truthy_false_string (o : option string) :
  Js.truthy o = false -> Pdf.js_str o = "undefined" \/ Pdf.js_str o = "".
Proof.
  destruct o as [s|]; simpl; [|left; reflexivity].
  intro H. right. apply negb_false_iff, String.eqb_eq in H. exact H.
Qed.

(** The PDF and Kindle title pages write a missing subtitle as the empty
    string. *)
Lemma title_pages_empty_subtitle (md : Metadata) (today : string) :
  subtitle md = None ->
  (exists rest, Pdf.createTitlePage md today
     = String.append (Pdf.cat ["---"; Pdf.nl; "title: "; Pdf.dq; Pdf.js_str (title md); Pdf.dq;
                               Pdf.nl; "subtitle: "; Pdf.dq; Pdf.dq; Pdf.nl]) rest)
  /\ (exists rest, KindleTitle.createTitlePage md
     = String.append (Pdf.cat ["---"; Pdf.nl; "title: "; Pdf.dq; Pdf.js_str (title md); Pdf.dq;
                               Pdf.nl; "subtitle: "; Pdf.dq; Pdf.dq; Pdf.nl]) rest).
Proof.
  intro Hs. unfold Pdf.createTitlePage, KindleTitle.createTitlePage, Pdf.js_or.
  rewrite Hs. cbn [Js.truthy]. split; eexists;
  cbn [Js.join Pdf.cat fold_right]; rewrite ?str_app_assoc; reflexivity.
Qed.

(** C9, as amended. A missing title is no hard error for every target:
    [buildWeb] aborts only on a file-system failure, and when its file
    operations succeed it completes, the title rendered as [undefined]
    (or empty). Only the validator reports the missing title, with its
    own message, and fails. A missing subtitle or cover image does not
    abort: the PDF and Kindle title pages write the subtitle as empty,
    and the validator only warns about both, so a record with title,
    description, date and an [author] string but neither passes. *)
Theorem missing_title_only_fails_validation (io : option string)
  (md : Metadata) (chapters : list (string * string))
  (Ht : Js.truthy (title md) = false) :
  (forall msg, buildWeb io md chapters = Aborted msg -> io = Some msg)
  /\ buildWeb None md chapters
    = Built (("docs/index.html", match title md with Some t => t | None => "" end)
             :: map (fun ch => (String.append "docs/chapters/" (fst ch),
                                String.append (snd ch)
                                  (String.append " - " (Pdf.js_str (title md)))))
                    chapters)
  /\ (Pdf.js_str (title md) = "undefined" \/ Pdf.js_str (title md) = "")
  /\ (forall cwd exists_path dir content props,
        ytruthy (lookup "title" props) = false ->
        In "Missing required metadata field: title"
           (fst (validateMetadata cwd exists_path (inr (YObject props))))
        /\ validate cwd exists_path dir (Some (inr (YObject props))) content = ExitFail)
  /\ (forall md' today, subtitle md' = None ->
        (exists rest, Pdf.createTitlePage md' today
           = String.append (Pdf.cat ["---"; Pdf.nl; "title: "; Pdf.dq; Pdf.js_str (title md');
                                     Pdf.dq; Pdf.nl; "subtitle: "; Pdf.dq; Pdf.dq; Pdf.nl]) rest)
        /\ (exists rest, KindleTitle.createTitlePage md'
           = String.append (Pdf.cat ["---"; Pdf.nl; "title: "; Pdf.dq; Pdf.js_str (title md');
                                     Pdf.dq; Pdf.nl; "subtitle: "; Pdf.dq; Pdf.dq; Pdf.nl]) rest))
  /\ (forall cwd exists_path props,
        ytruthy (lookup "title" props) = true -> ytruthy (lookup "description" props) = true ->
        ytruthy (lookup "date" props) = true -> ytruthy (lookup "author" props) = true ->
        lookup "authors" props = YUndefined -> lookup "subtitle" props = YUndefined ->
        lookup "kindle" props = YUndefined ->
        validate cwd exists_path [] (Some (inr (YObject props))) [] = ExitOk
        /\ In "Missing recommended metadata field: subtitle"
              (snd (validateMetadata cwd exists_path (inr (YObject props))))
        /\ In "No cover image specified in metadata"
              (snd (validateMetadata cwd exists_path (inr (YObject props))))).
Proof.
  split; [destruct io; intros msg H; [injection H as ->; reflexivity | discriminate H]|].
  split; [reflexivity|].
  split; [apply truthy_false_string, Ht|].
  split.
  { intros cwd exists_path dir content props Hp.
    assert (Hin : In "Missing required metadata field: title"
                    (fst (validateMetadata cwd exists_path (inr (YObject props))))).
    { unfold validateMetadata, metadata_checks, seq_all. cbn [fold_right].
      cbn [fst]. apply in_or_app. left.
      apply in_errs_seq_out. unfold check_required, seq_all. cbn [map fold_right].
      apply in_errs_seq_out. unfold with_prop, get. rewrite Hp. left. reflexivity. }
    split; [exact Hin | exact (validate_fail_of_error _ _ _ _ _ _ Hin)]. }
  split; [intros md' today Hs; exact (title_pages_empty_subtitle md' today Hs)|].
  intros cwd exists_path props H1 H2 H3 H4 H5 H6 H7.
  unfold validate, validateMetadata, metadata_checks, seq_all, check_required,
    check_author, check_names, check_recommended, check_cover, with_prop, get.
  cbn [map fold_right].
  rewrite H1, H2, H3, H4, H5, H6, H7.
  destruct (ytruthy (lookup "language" props)), (ytruthy (lookup "version" props));
    cbn; (split; [reflexivity|]); split; auto 10.
Qed.

Lemma missing_title_only_fails_validation_witness :
  validate "/book" (fun _ => true) []
    (Some (inr (YObject [("description", YString "About"); ("date", YString "2026");
                         ("author", YString "Ada")]))) [] = ExitFail
  /\ validate "/book" (fun _ => true) []
       (Some (inr (YObject [("title", YString "Book"); ("description", YString "About");
                            ("date", YString "2026"); ("author", YString "Ada")]))) [] = ExitOk.
Proof.
  destruct (missing_title_only_fails_validation None md_untitled [] eq_refl)
    as [_ [_ [_ [Hfail [_ Hok]]]]].
  split.
  - apply (Hfail "/book" (fun _ => true) [] [] _). reflexivity.
  - apply Hok; reflexivity.
Defined.

End ValidateFacts.

Module StrFacts.

Lemma append_assoc_s (a b c : string) :
  String.append a (String.append b c) = String.append (String.append a b) c.
Proof. induction a as [|x a IH]; simpl; [reflexivity | rewrite IH; reflexivity]. Qed.

Lemma append_empty_r (a : string) : String.append a EmptyString = a.
Proof. induction a as [|x a IH]; simpl; [reflexivity | rewrite IH; reflexivity]. Qed.

Lemma list_ascii_append (a b : string) :
  list_ascii_of_string (String.append a b) = list_ascii_of_string a ++ list_ascii_of_string b.
Proof. induction a as [|x a IH]; simpl; [reflexivity | rewrite IH; reflexivity]. Qed.

End StrFacts.

Module AuthorObjectsFacts.
Import Js Authors AuthorObjects StrFacts.

Lemma oname_process_author (a : AuthorObj) : oname (process_author a) = oname a.
Proof. unfold process_author. destruct (twitter a); [destruct (_ && _)|]; reflexivity. Qed.

(** When the author list of the metadata holds the names of the author
    objects, [getAuthorObjects] and [getAuthorArray] give the same names
    in the same order: the [@] removal only touches the Twitter handle,
    and the legacy branch splits the [author] string exactly as
    [getAuthorArray] does. *)
Theorem getAuthorObjects_names (md : Metadata) (objs : option (list AuthorObj))
  (H : authors md = option_map (map (fun a => mkAuthor (oname a))) objs) :
  map oname (getAuthorObjects (author md) objs) = getAuthorArray md.
Proof.
  unfold getAuthorObjects, getAuthorArray, authors_list, objs_list. rewrite H.
  destruct objs as [[|a l]|]; simpl.
  - destruct (truthy (author md)); [|reflexivity].
    destruct (author md); [|reflexivity]. rewrite map_map. apply map_id.
  - rewrite oname_process_author, map_map, map_map. f_equal.
    apply map_ext. intro x. apply oname_process_author.
  - destruct (truthy (author md)); [|reflexivity].
    destruct (author md); [|reflexivity]. rewrite map_map. apply map_id.
Qed.

Lemma getAuthorObjects_names_witness :
  map oname (getAuthorObjects (author (md_with None (Some [mkAuthor "Ada"])))
               (Some [mkAuthorObj "Ada" None None (Some "@ada") None None None]))
  = getAuthorArray (md_with None (Some [mkAuthor "Ada"])).
Proof.
  exact (getAuthorObjects_names (md_with None (Some [mkAuthor "Ada"]))
           (Some [mkAuthorObj "Ada" None None (Some "@ada") None None None]) eq_refl).
Defined.

Definition strip_one_at (t : option string) : option string :=
  match t with
  | Some (String c r) => if Ascii.eqb c "@"%char then Some r else Some (String c r)
  | _ => t
  end.

(** [getAuthorObjects] keeps every field of each listed author and only
    removes one leading [@] from its Twitter handle; the objects built
    from the legacy [author] string have every contact field and the
    bio set to [the empty string]. *)
Theorem getAuthorObjects_fields (author : option string) (objs : option (list AuthorObj)) :
  (forall a0 l i a, objs = Some (a0 :: l) -> nth_error (a0 :: l) i = Some a ->
     nth_error (getAuthorObjects author objs) i
     = Some (mkAuthorObj (oname a) (bio a) (email a) (strip_one_at (twitter a))
               (website a) (linkedin a) (github a)))
  /\ (objs_list objs = None -> forall o, In o (getAuthorObjects author objs) ->
        bio o = Some "" /\ email o = Some "" /\ twitter o = Some ""
        /\ website o = Some "" /\ linkedin o = Some "" /\ github o = Some "").
Proof.
  split.
  - intros a0 l i a Ho Hi. unfold getAuthorObjects. rewrite Ho. simpl objs_list. cbv iota.
    rewrite nth_error_map, Hi. simpl. f_equal.
    unfold process_author, strip_one_at.
    destruct a as [n b e [[|c r]|] w li g]; simpl; try reflexivity.
    destruct (Ascii.eqb c "@"%char); reflexivity.
  - intros Hn o Hin. unfold getAuthorObjects in Hin. rewrite Hn in Hin.
    destruct (truthy author); [|destruct Hin].
    destruct author as [s|]; [|destruct Hin].
    apply in_map_iff in Hin as [n [<- _]]. simpl. repeat split.
Qed.

Definition author_section (a : AuthorObj) : string :=
  Pdf.cat ["## "; oname a; Pdf.nl; Pdf.nl; bio_text a; Pdf.nl; Pdf.nl;
           match contacts a with
           | [] => ""
           | cs => Pdf.cat ["Contact: "; join " • " cs; Pdf.nl; Pdf.nl]
           end].

Definition about_sep : string := Pdf.cat ["---"; Pdf.nl; Pdf.nl].

Ltac norm_str := unfold Pdf.cat; simpl fold_right; rewrite ?append_empty_r;
  repeat (progress cbn [String.append] || rewrite <- append_assoc_s).

Lemma about_loop_join (n : nat) (l : list AuthorObj) :
  forall i c, l <> [] -> i + List.length l = n ->
  about_loop n i l c = String.append c (join about_sep (map author_section l)).
Proof.
  induction l as [|a r IH]; intros i c Hl Hn; [congruence|].
  simpl about_loop. cbv zeta.
  destruct r as [|b r'].
  - simpl in Hn. replace (Nat.ltb i (n - 1)) with false by (symmetry; apply Nat.ltb_ge; lia).
    simpl. unfold author_section.
    destruct (contacts a) eqn:Ec; cbn [List.length Nat.ltb Nat.leb]; norm_str; reflexivity.
  - replace (Nat.ltb i (n - 1)) with true by (symmetry; apply Nat.ltb_lt; simpl in Hn; lia).
    rewrite IH by (discriminate || (simpl in Hn |- *; lia)).
    change (join about_sep (map author_section (a :: b :: r')))
      with (String.append (author_section a)
              (String.append about_sep (join about_sep (map author_section (b :: r'))))).
    unfold author_section, about_sep.
    destruct (contacts a) eqn:Ec; cbn [List.length Nat.ltb Nat.leb]; norm_str; reflexivity.
Qed.

(** With two authors or more, the About page is the heading
    [# About the Authors] followed by one section per author (name, bio
    or the ["... is..."] placeholder, and a contact line when there is
    any contact), the sections separated by [---] lines. *)
Theorem about_authors_layout (author : option string) (objs : option (list AuthorObj))
  (H : 2 <= List.length (getAuthorObjects author objs)) :
  generateAboutAuthors author objs
  = Pdf.cat ["# About the Authors"; Pdf.nl; Pdf.nl;
             join about_sep (map author_section (getAuthorObjects author objs))].
Proof.
  unfold generateAboutAuthors.
  destruct (getAuthorObjects author objs) as [|a [|b r]] eqn:E; simpl in H; try lia.
  rewrite about_loop_join by (discriminate || lia).
  unfold Pdf.cat. cbn [fold_right]. rewrite !append_empty_r, <- !append_assoc_s.
  reflexivity.
Qed.

Lemma about_authors_layout_witness :
  2 <= List.length (getAuthorObjects (Some "Ada & Lin") None)
  /\ generateAboutAuthors (Some "Ada & Lin") None
     = Pdf.cat ["# About the Authors"; Pdf.nl; Pdf.nl;
                join about_sep (map author_section (getAuthorObjects (Some "Ada & Lin") None))].
Proof.
  assert (H : 2 <= List.length (getAuthorObjects (Some "Ada & Lin") None))
    by (vm_compute; lia).
  split; [exact H | exact (about_authors_layout _ _ H)].
Defined.

End AuthorObjectsFacts.

Module LeanpubFacts.
Import Js Authors AuthorObjects Leanpub StrFacts.

Definition no_nl (s : string) : Prop := ~ In (ascii_of_nat 10) (list_ascii_of_string s).

Lemma split_lines_go_app (x : string) : forall cur rest, no_nl x ->
  Pdf.split_lines_go cur (String.append x rest)
  = Pdf.split_lines_go (String.append cur x) rest.
Proof.
  induction x as [|c x IH]; intros cur rest Hx; simpl.
  - rewrite append_empty_r. reflexivity.
  - unfold no_nl in Hx. simpl in Hx.
    destruct (Ascii.eqb c (ascii_of_nat 10)) eqn:E.
    + apply Ascii.eqb_eq in E. exfalso. apply Hx. left. exact E.
    + rewrite IH by (intro H; apply Hx; right; exact H).
      rewrite <- append_assoc_s. reflexivity.
Qed.

Lemma split_lines_join (l : list string) :
  l <> [] -> Forall no_nl l -> Pdf.split_lines (join Pdf.nl l) = l.
Proof.
  unfold Pdf.split_lines.
  induction l as [|x [|y r] IH]; intros Hl Hf; [congruence| |].
  - inversion Hf as [|? ? Hx _]; subst. simpl join.
    rewrite <- (append_empty_r x) at 1.
    rewrite split_lines_go_app by exact Hx. reflexivity.
  - inversion Hf as [|? ? Hx Hr]; subst.
    change (join Pdf.nl (x :: y :: r))
      with (String.append x (String.append Pdf.nl (join Pdf.nl (y :: r)))).
    rewrite split_lines_go_app by exact Hx.
    assert (Hstep : forall cur rest,
               Pdf.split_lines_go cur (String.append Pdf.nl rest)
               = cur :: Pdf.split_lines_go EmptyString rest) by reflexivity.
    rewrite Hstep, IH by (discriminate || exact Hr). reflexivity.
Qed.

Lemma filter_all {A} (f : A -> bool) (l : list A) :
  Forall (fun x => f x = true) l -> filter f l = l.
Proof.
  induction 1 as [|x l Hx _ IH]; simpl; [reflexivity|]. rewrite Hx, IH. reflexivity.
Qed.

(** For chapter names that are single non-blank lines, the [Book.txt]
    that [buildLeanpub] finally writes lists [dedication.txt], the
    chapters in order and [about-author.txt], one per line (the first
    [Book.txt] is overwritten by [createLeanpubFiles]), and [Sample.txt]
    lists the first two chapters. *)
Theorem leanpub_book_txt (md : Metadata) (objs : option (list AuthorObj))
  (files : list string)
  (Hnl : Forall (fun f => ~ In (ascii_of_nat 10) (list_ascii_of_string f)) files)
  (Hblank : Forall (fun f => trim (list_ascii_of_string f) <> []) files) :
  final_file "manuscript/Book.txt" (buildLeanpub md objs files)
    = Some (join Pdf.nl ("dedication.txt" :: files ++ ["about-author.txt"]))
  /\ final_file "manuscript/Sample.txt" (buildLeanpub md objs files)
    = Some (join Pdf.nl (firstn 2 files)).
Proof.
  assert (Hfull : fullBookTxt (bookTxt files)
                  = join Pdf.nl ("dedication.txt" :: files ++ ["about-author.txt"])).
  { unfold fullBookTxt, bookTxt. destruct files as [|f fs]; [reflexivity|].
    rewrite split_lines_join by (discriminate || exact Hnl).
    rewrite filter_all; [reflexivity|].
    eapply Forall_impl; [|exact Hblank].
    intros x Hx. cbv beta in Hx. destruct (trim (list_ascii_of_string x)); [congruence | reflexivity]. }
  unfold final_file, buildLeanpub, createLeanpubFiles.
  destruct (truthy (subtitle md)); simpl; rewrite Hfull; split; reflexivity.
Qed.

Lemma leanpub_book_txt_witness :
  final_file "manuscript/Book.txt"
    (buildLeanpub (md_with (Some "Ada") None) None ["01-a.md"; "02-b.md"; "03-c.md"])
  = Some (join Pdf.nl ["dedication.txt"; "01-a.md"; "02-b.md"; "03-c.md";
                       "about-author.txt"]).
Proof.
  apply (leanpub_book_txt (md_with (Some "Ada") None) None ["01-a.md"; "02-b.md"; "03-c.md"]).
  - repeat (apply Forall_cons;
            [vm_compute; intro H; repeat (destruct H as [H|H]; [discriminate H|]);
             exact H|]).
    apply Forall_nil.
  - repeat (apply Forall_cons; [vm_compute; discriminate|]). apply Forall_nil.
Defined.

End LeanpubFacts.

Module LegacyNamesFacts.
Import Js JsFacts Authors AuthorsFacts.

Lemma drop_ws_idem (l : list ascii) : drop_ws (drop_ws l) = drop_ws l.
Proof.
  induction l as [|c l IH]; simpl; [reflexivity|].
  case_eq (is_ws c); intro Hc; [exact IH|]. simpl. rewrite Hc. reflexivity.
Qed.

Lemma trim_idem (l : list ascii) : trim (trim l) = trim l.
Proof.
  set (y := drop_ws l).
  assert (Hy : drop_ws y = y) by apply drop_ws_idem.
  set (u := drop_ws (rev y)).
  assert (Hu : drop_ws u = u) by apply drop_ws_idem.
  change (trim l) with (rev u).
  destruct (drop_ws_prefix (rev y)) as [w [Hw Hrev]]. fold u in Hrev.
  assert (Hyu : y = rev u ++ rev w)
    by (rewrite <- rev_app_distr, <- Hrev, rev_involutive; reflexivity).
  unfold trim.
  case_eq (forallb is_ws (rev u)); intro Hru.
  - rewrite forallb_rev in Hru. rewrite (drop_ws_all u Hru) in Hu.
    rewrite <- Hu. reflexivity.
  - assert (Hdu : drop_ws (rev u) = rev u).
    { rewrite Hyu, drop_ws_app, Hru in Hy.
      apply app_inv_tail in Hy. exact Hy. }
    rewrite Hdu, rev_involutive, Hu. reflexivity.
Qed.

Lemma forallb_drop_ws (p : ascii -> bool) (l : list ascii) :
  forallb p l = true -> forallb p (drop_ws l) = true.
Proof.
  induction l as [|c l IH]; simpl; [reflexivity|].
  intro H. apply andb_prop in H as [H1 H2].
  destruct (is_ws c); [apply IH, H2 | simpl; rewrite H1, H2; reflexivity].
Qed.

Lemma forallb_trim (p : ascii -> bool) (l : list ascii) :
  forallb p l = true -> forallb p (trim l) = true.
Proof.
  intro H. unfold trim. rewrite forallb_rev.
  apply forallb_drop_ws. rewrite forallb_rev. apply forallb_drop_ws, H.
Qed.

Lemma split_on_seps_pieces (cur s : list ascii) :
  forallb (fun c => negb (is_sep c)) cur = true ->
  Forall (fun p => forallb (fun c => negb (is_sep c)) p = true) (split_on_seps cur s).
Proof.
  revert cur. induction s as [|c s IH]; intros cur Hc; simpl.
  - constructor; [exact Hc | constructor].
  - case_eq (is_sep c); intro Hs.
    + constructor; [exact Hc | apply IH; reflexivity].
    + apply IH. rewrite forallb_app, Hc. simpl. rewrite Hs. reflexivity.
Qed.

(** Every name [getAuthorArray] takes from the legacy [author] string is
    non-empty, has no surrounding whitespace and contains neither [&]
    nor a comma. *)
Theorem legacy_names_clean (md : Metadata) (Hl : authors_list md = None)
  (n : string) (Hn : In n (getAuthorArray md)) :
  n <> ""
  /\ trim (list_ascii_of_string n) = list_ascii_of_string n
  /\ forallb (fun c => negb (is_sep c)) (list_ascii_of_string n) = true.
Proof.
  unfold getAuthorArray in Hn. rewrite Hl in Hn.
  destruct (truthy (author md)); [|destruct Hn].
  destruct (author md) as [s|]; [|destruct Hn].
  rewrite regex_split_trim in Hn.
  apply in_map_iff in Hn as [p [Hnp Hp]]. subst n.
  rewrite list_ascii_of_string_of_list_ascii.
  apply filter_In in Hp as [Hp Hne].
  apply in_map_iff in Hp as [q [Hpq Hq]]. subst p.
  pose proof (proj1 (Forall_forall _ _) (split_on_seps_pieces [] _ eq_refl) q Hq) as Hsep.
  split; [|split].
  - intro E. destruct (trim q) eqn:Et; [discriminate Hne|]. discriminate E.
  - apply trim_idem.
  - apply forallb_trim, Hsep.
Qed.

Lemma legacy_names_clean_witness :
  In "Lin" (getAuthorArray (md_with (Some " Ada ,Lin& ") None))
  /\ trim (list_ascii_of_string "Lin") = list_ascii_of_string "Lin".
Proof.
  assert (Hin : In "Lin" (getAuthorArray (md_with (Some " Ada ,Lin& ") None)))
    by (vm_compute; right; left; reflexivity).
  split; [exact Hin|].
  exact (proj1 (proj2 (legacy_names_clean (md_with (Some " Ada ,Lin& ") None) eq_refl "Lin" Hin))).
Defined.

End LegacyNamesFacts.

Module TocRuntimeFacts.
Import Js TocRuntime StrFacts.

Lemma nth_error_combine_seq {A} (l : list A) : forall k i,
  nth_error (combine (seq k (List.length l)) l) i
  = option_map (fun x => (k + i, x)) (nth_error l i).
Proof.
  induction l as [|x l IH]; intros k i; [destruct i; reflexivity|].
  destruct i as [|i]; simpl; [rewrite Nat.add_0_r; reflexivity|].
  rewrite IH. destruct (nth_error l i); simpl; [rewrite Nat.add_succ_r|]; reflexivity.
Qed.

Lemma nth_error_toc_ids (hs : list Heading) (i : nat) (h : Heading) :
  nth_error hs i = Some h -> nth_error (toc_ids hs) i = Some (heading_id h i).
Proof.
  intro H. unfold toc_ids. rewrite nth_error_map, nth_error_combine_seq, H. reflexivity.
Qed.

Lemma length_toc_ids (hs : list Heading) : List.length (toc_ids hs) = List.length hs.
Proof.
  unfold toc_ids. rewrite length_map, length_combine, length_seq. apply Nat.min_id.
Qed.

Lemma append_same_length (p p' s s' : string) :
  String.length p = String.length p' -> String.append p s = String.append p' s' -> s = s'.
Proof.
  revert p'. induction p as [|c p IH]; intros [|c' p'] Hl He; try discriminate; [exact He|].
  simpl in Hl, He. injection He as _ He. injection Hl as Hl. exact (IH p' Hl He).
Qed.

Lemma nat_to_string_inj (a b : nat) : nat_to_string a = nat_to_string b -> a = b.
Proof.
  unfold nat_to_string. intro H.
  apply (f_equal NilEmpty.uint_of_string) in H. rewrite !NilEmpty.usu in H.
  injection H as H. exact (DecimalNat.Unsigned.to_uint_inj a b H).
Qed.

Definition h_tags : list string := ["H1"; "H2"; "H3"; "H4"; "H5"; "H6"].

Lemma generated_id_shape (h : Heading) (i : nat) :
  In (tagName h) h_tags -> hid h = "" ->
  exists p, String.length p = 11 /\ heading_id h i = String.append p (nat_to_string i).
Proof.
  intros Ht Hid. unfold heading_id. rewrite Hid. simpl truthy. cbv iota.
  exists (String.append "heading-"
            (String.append
               (string_of_list_ascii (map Anchors.lower (list_ascii_of_string (tagName h))))
               "-")).
  split.
  - unfold h_tags in Ht.
    repeat (destruct Ht as [Ht|Ht]; [rewrite <- Ht; reflexivity|]). destruct Ht.
  - unfold Pdf.cat. simpl fold_right. rewrite append_empty_r, <- !append_assoc_s.
    reflexivity.
Qed.

(** The ids [initTableOfContents] generates for headings without an id
    ([heading-<tag>-<index>], for tags [H1] to [H6]) differ for
    different positions, so generated ids never collide with each
    other. *)
Theorem toc_generated_ids_distinct (hs : list Heading) (i j : nat) (hi hj : Heading)
  (Hij : i <> j) (Hi : nth_error hs i = Some hi) (Hj : nth_error hs j = Some hj)
  (Ti : In (tagName hi) h_tags) (Tj : In (tagName hj) h_tags)
  (Ni : hid hi = "") (Nj : hid hj = "") :
  nth_error (toc_ids hs) i <> nth_error (toc_ids hs) j.
Proof.
  rewrite (nth_error_toc_ids hs i hi Hi), (nth_error_toc_ids hs j hj Hj).
  destruct (generated_id_shape hi i Ti Ni) as [p [Hp Ep]].
  destruct (generated_id_shape hj j Tj Nj) as [q [Hq Eq]].
  rewrite Ep, Eq. intro E. injection E as E.
  apply Hij, nat_to_string_inj. apply (append_same_length p q); [congruence | exact E].
Qed.

Lemma toc_generated_ids_distinct_witness :
  nth_error (toc_ids [mkHeading "H2" "" 0; mkHeading "H2" "" 300]) 0
  <> nth_error (toc_ids [mkHeading "H2" "" 0; mkHeading "H2" "" 300]) 1.
Proof.
  apply (toc_generated_ids_distinct _ 0 1 (mkHeading "H2" "" 0) (mkHeading "H2" "" 300));
    try reflexivity; try discriminate; simpl; tauto.
Defined.


Definition lt_opt (d : Z) (c : option Z) : Prop :=
  match c with None => True | Some c => (d < c)%Z end.

Lemma scan_spec (sp : Z) (l : list Heading) : forall k a c,
  (scan sp l k a c = a
   /\ forall j h, nth_error l j = Some h -> (offsetTop h <= sp)%Z ->
        ~ lt_opt (sp - offsetTop h) c)
  \/ (exists j h, scan sp l k a c = Some (k + j) /\ nth_error l j = Some h
      /\ (offsetTop h <= sp)%Z /\ lt_opt (sp - offsetTop h) c
      /\ (forall j' h', nth_error l j' = Some h' -> (offsetTop h' <= sp)%Z ->
            (offsetTop h' <= offsetTop h)%Z)
      /\ (forall j' h', j' < j -> nth_error l j' = Some h' -> (offsetTop h' <= sp)%Z ->
            (offsetTop h' < offsetTop h)%Z)).
Proof.
  induction l as [|h0 l IH]; intros k a c; simpl.
  - left. split; [reflexivity | intros [|j] h H; discriminate].
  - set (t := offsetTop h0).
    destruct (Z.leb t sp && match c with None => true
                            | Some c0 => Z.ltb (Z.abs (sp - t)) c0 end) eqn:E.
    + apply andb_prop in E as [Ht Hc]. apply Z.leb_le in Ht.
      rewrite Z.abs_eq in Hc by lia.
      rewrite Z.abs_eq by lia.
      destruct (IH (S k) (Some k) (Some (sp - t)%Z))
        as [[Hs Hno] | [j [h [Hs [Hj [Hh [Hlt [Hmax Hfirst]]]]]]]].
      * right. exists 0, h0. rewrite Hs, Nat.add_0_r.
        split; [reflexivity|]. split; [reflexivity|]. split; [exact Ht|].
        split; [destruct c; simpl in Hc |- *; [apply Z.ltb_lt in Hc|]; auto|].
        split.
        -- intros [|j'] h' Hj' Hh'; simpl in Hj'.
           ++ injection Hj' as <-. lia.
           ++ specialize (Hno j' h' Hj' Hh'). simpl in Hno. fold t. lia.
        -- intros j' h' Hj'. lia.
      * right. exists (S j), h. rewrite Hs.
        split; [f_equal; lia|]. split; [exact Hj|]. split; [exact Hh|].
        simpl in Hlt.
        split; [destruct c; simpl in Hc |- *; [apply Z.ltb_lt in Hc; lia|exact I]|].
        split.
        -- intros [|j'] h' Hj' Hh'; simpl in Hj'.
           ++ injection Hj' as <-. fold t. lia.
           ++ exact (Hmax j' h' Hj' Hh').
        -- intros [|j'] h' Hj'l Hj' Hh'; simpl in Hj'.
           ++ injection Hj' as <-. fold t. lia.
           ++ apply (Hfirst j' h'); [lia | exact Hj' | exact Hh'].
    + destruct (IH (S k) a c)
        as [[Hs Hno] | [j [h [Hs [Hj [Hh [Hlt [Hmax Hfirst]]]]]]]].
      * left. split; [exact Hs|].
        intros [|j'] h' Hj' Hh'; simpl in Hj'; [|exact (Hno j' h' Hj' Hh')].
        injection Hj' as <-. fold t in Hh' |- *.
        apply Z.leb_le in Hh'. rewrite Hh' in E. simpl in E.
        apply Z.leb_le in Hh'. rewrite Z.abs_eq in E by lia.
        destruct c as [c0|]; [|discriminate]. simpl.
        apply Z.ltb_ge in E. lia.
      * right. exists (S j), h. rewrite Hs.
        split; [f_equal; lia|]. split; [exact Hj|]. split; [exact Hh|].
        split; [exact Hlt|].
        assert (H0 : (t <= sp)%Z -> (t < offsetTop h)%Z).
        { intro Ht. apply Z.leb_le in Ht. rewrite Ht in E. simpl in E.
          apply Z.leb_le in Ht. rewrite Z.abs_eq in E by lia.
          destruct c as [c0|]; [|discriminate]. simpl in Hlt.
          apply Z.ltb_ge in E. lia. }
        split.
        -- intros [|j'] h' Hj' Hh'; simpl in Hj'.
           ++ injection Hj' as <-. fold t in Hh' |- *. specialize (H0 Hh'). lia.
           ++ exact (Hmax j' h' Hj' Hh').
        -- intros [|j'] h' Hj'l Hj' Hh'; simpl in Hj'.
           ++ injection Hj' as <-. fold t in Hh' |- *. exact (H0 Hh').
           ++ apply (Hfirst j' h'); [lia | exact Hj' | exact Hh'].
Qed.

(** [updateActiveTocItem] picks the first heading when the page is
    scrolled less than 80 pixels or no heading starts at or above the
    reading line [scrollY + 120]; otherwise the heading starting
    closest above that line, the first of them on a tie. *)
Theorem active_heading_choice (scrollY : Z) (hs : list Heading) (Hne : hs <> []) :
  ((scrollY + 120 < 200)%Z -> active_heading scrollY hs = Some 0)
  /\ ((forall h, In h hs -> (scrollY + 120 < offsetTop h)%Z) ->
      active_heading scrollY hs = Some 0)
  /\ ((200 <= scrollY + 120)%Z ->
      forall j0 h0, nth_error hs j0 = Some h0 -> (offsetTop h0 <= scrollY + 120)%Z ->
      exists i h, active_heading scrollY hs = Some i /\ nth_error hs i = Some h
        /\ (offsetTop h <= scrollY + 120)%Z
        /\ (forall j h', nth_error hs j = Some h' -> (offsetTop h' <= scrollY + 120)%Z ->
              (offsetTop h' <= offsetTop h)%Z)
        /\ (forall j h', j < i -> nth_error hs j = Some h' ->
              (offsetTop h' <= scrollY + 120)%Z -> (offsetTop h' < offsetTop h)%Z)).
Proof.
  assert (Hlen : Nat.ltb 0 (List.length hs) = true)
    by (destruct hs; [congruence | reflexivity]).
  unfold active_heading.
  split; [|split].
  - intro H. apply Z.ltb_lt in H. rewrite H, orb_true_r, Hlen. reflexivity.
  - intro Hall.
    destruct (scan_spec (scrollY + 120) hs 0 None None)
      as [[Hs _] | [j [h [_ [Hj [Hh _]]]]]].
    + rewrite Hs. simpl. rewrite Hlen. reflexivity.
    + exfalso. specialize (Hall h (nth_error_In hs j Hj)). lia.
  - intros H200 j0 h0 Hj0 Hh0.
    destruct (scan_spec (scrollY + 120) hs 0 None None)
      as [[Hs Hno] | [j [h [Hs [Hj [Hh [_ [Hmax Hfirst]]]]]]]].
    + exfalso. exact (Hno j0 h0 Hj0 Hh0 I).
    + exists j, h. rewrite Hs. simpl.
      replace (Z.ltb (scrollY + 120) 200) with false by (symmetry; apply Z.ltb_ge; lia).
      split; [reflexivity|]. split; [exact Hj|]. split; [exact Hh|].
      split; [exact Hmax | exact Hfirst].
Qed.

Lemma active_heading_choice_witness :
  active_heading 600 [mkHeading "H1" "" 0; mkHeading "H2" "" 500; mkHeading "H2" "" 1200]
  = Some 1.
Proof.
  destruct (active_heading_choice 600
              [mkHeading "H1" "" 0; mkHeading "H2" "" 500; mkHeading "H2" "" 1200]
              ltac:(discriminate)) as [_ [_ H]].
  destruct (H ltac:(lia) 1 (mkHeading "H2" "" 500) eq_refl ltac:(simpl; lia))
    as [i [h [Hi [Hh [Htop [Hmax _]]]]]].
  rewrite Hi. f_equal.
  destruct i as [|[|[|i]]]; simpl in Hh.
  all: try (injection Hh as <-; simpl in Htop).
  - specialize (Hmax 1 (mkHeading "H2" "" 500) eq_refl ltac:(simpl; lia)). simpl in Hmax. lia.
  - reflexivity.
  - lia.
  - destruct i; discriminate.
Defined.

Lemma active_heading_bound (scrollY : Z) (hs : list Heading) :
  hs <> [] -> exists i, active_heading scrollY hs = Some i /\ i < List.length hs.
Proof.
  intro Hne.
  assert (Hlen : Nat.ltb 0 (List.length hs) = true)
    by (destruct hs; [congruence | reflexivity]).
  unfold active_heading.
  destruct (scan_spec (scrollY + 120) hs 0 None None)
    as [[Hs _] | [j [h [Hs [Hj _]]]]].
  - rewrite Hs. simpl. rewrite Hlen. exists 0. split; [reflexivity|].
    apply Nat.ltb_lt, Hlen.
  - rewrite Hs. simpl.
    destruct (Z.ltb (scrollY + 120) 200); simpl; rewrite ?Hlen.
    + exists 0. split; [reflexivity | apply Nat.ltb_lt, Hlen].
    + exists j. split; [reflexivity|]. apply nth_error_Some. rewrite Hj. discriminate.
Qed.

Lemma eqb_nth_nodup (l : list string) (i : nat) :
  NoDup l -> i < List.length l ->
  map (fun x => String.eqb x (nth i l EmptyString)) l
  = map (fun k => Nat.eqb k i) (seq 0 (List.length l)).
Proof.
  intros Hnd Hi. apply nth_error_ext. intro k.
  rewrite !nth_error_map.
  destruct (Nat.lt_ge_cases k (List.length l)) as [Hk|Hk].
  - rewrite nth_error_seq. destruct (Nat.ltb k (List.length l)) eqn:E;
      [|apply Nat.ltb_ge in E; lia].
    destruct (nth_error l k) as [x|] eqn:Ex;
      [|apply nth_error_None in Ex; lia].
    simpl. f_equal.
    assert (Hx : x = nth k l EmptyString)
      by (symmetry; apply nth_error_nth; exact Ex).
    destruct (Nat.eqb k i) eqn:Eki.
    + apply Nat.eqb_eq in Eki. subst. apply String.eqb_refl.
    + apply String.eqb_neq. intro Heq. apply Nat.eqb_neq in Eki. apply Eki.
      rewrite Hx in Heq.
      exact (proj1 (NoDup_nth l EmptyString) Hnd k i Hk Hi Heq).
  - rewrite (proj2 (nth_error_None l k) Hk).
    rewrite nth_error_seq. destruct (Nat.ltb k (List.length l)) eqn:E;
      [apply Nat.ltb_lt in E; lia | reflexivity].
Qed.

(** With pairwise distinct heading ids and at least one heading,
    exactly one TOC link is marked active: the link of the active
    heading. *)
Theorem one_active_link (scrollY : Z) (hs : list Heading)
  (Hne : hs <> []) (Hnd : NoDup (toc_ids hs)) :
  exists i, active_heading scrollY hs = Some i /\ i < List.length hs
    /\ updateActiveTocItem scrollY hs (toc_ids hs)
       = map (fun k => Nat.eqb k i) (seq 0 (List.length hs)).
Proof.
  destruct (active_heading_bound scrollY hs Hne) as [i [Hi Hlt]].
  exists i. split; [exact Hi|]. split; [exact Hlt|].
  unfold updateActiveTocItem. rewrite Hi.
  rewrite <- length_toc_ids. apply eqb_nth_nodup; [exact Hnd | rewrite length_toc_ids; exact Hlt].
Qed.

Lemma one_active_link_witness :
  updateActiveTocItem 600 [mkHeading "H1" "" 0; mkHeading "H2" "" 500; mkHeading "H2" "" 1200]
    (toc_ids [mkHeading "H1" "" 0; mkHeading "H2" "" 500; mkHeading "H2" "" 1200])
  = [false; true; false].
Proof.
  destruct (one_active_link 600
              [mkHeading "H1" "" 0; mkHeading "H2" "" 500; mkHeading "H2" "" 1200]
              ltac:(discriminate) ltac:(vm_compute; repeat constructor; simpl; intuition discriminate))
    as [i [Hi [_ Hl]]].
  rewrite Hl. vm_compute in Hi. injection Hi as <-. reflexivity.
Defined.


(** [adjustTocPosition] leaves the sidebar alone without a navigation
    bar or on a viewport at most 768 pixels wide; otherwise the top is at
    least 80 pixels and at least 20 below the navigation bar: exactly
    [max (navHeight + 20) 80] once the header is scrolled past, and
    [max (headerHeight + navHeight + 20) 80] while it is visible, for a
    header of non-negative height. The two heights are 40 and 120
    pixels below the top. *)
Theorem adjust_toc_position_top (nav header : option Z) (w st : Z) :
  (nav = None \/ (w <= 768)%Z -> adjustTocPosition nav header w st = None)
  /\ forall navHeight, nav = Some navHeight -> (768 < w)%Z ->
     let hh := match header with Some h => h | None => 0%Z end in
     exists top, adjustTocPosition nav header w st
       = Some (top, String.append (Grouping.Z_to_string top) "px",
               Pdf.cat ["calc(100vh - "; Grouping.Z_to_string (top + 40); "px)"],
               Pdf.cat ["calc(100vh - "; Grouping.Z_to_string (top + 120); "px)"])
     /\ (80 <= top)%Z /\ (navHeight + 20 <= top)%Z
     /\ ((hh < st)%Z -> top = Z.max (navHeight + 20) 80)
     /\ ((st <= hh)%Z -> (0 <= hh)%Z -> top = Z.max (hh + navHeight + 20) 80).
Proof.
  split.
  - intros [-> | Hw]; [reflexivity|]. unfold adjustTocPosition.
    destruct nav; [|reflexivity].
    replace (Z.ltb 768 w) with false by (symmetry; apply Z.ltb_ge; exact Hw).
    reflexivity.
  - intros navHeight -> Hw hh. unfold adjustTocPosition.
    replace (Z.ltb 768 w) with true by (symmetry; apply Z.ltb_lt; exact Hw).
    fold hh. eexists. split; [reflexivity|].
    destruct (Z.leb st hh) eqn:E.
    + apply Z.leb_le in E. split; [lia|]. split; [lia|]. split; [lia|].
      intros _ H0. lia.
    + apply Z.leb_gt in E. split; [lia|]. split; [lia|]. split; [|lia].
      intros _. lia.
Qed.

Lemma adjust_toc_position_top_witness :
  adjustTocPosition (Some 60%Z) (Some 100%Z) 1024 0
  = Some (180%Z, "180px", "calc(100vh - 220px)", "calc(100vh - 300px)").
Proof.
  destruct (adjust_toc_position_top (Some 60%Z) (Some 100%Z) 1024 0) as [_ H].
  destruct (H 60%Z eq_refl ltac:(lia)) as [top [Ht [_ [_ [_ Hv]]]]].
  rewrite Ht. rewrite (Hv ltac:(simpl; lia) ltac:(simpl; lia)). vm_compute. reflexivity.
Defined.

(** The relations between the sidebar fields that every handler keeps. *)
Definition sidebar_inv (s : SidebarState) : Prop :=
  mobileActive s = tocMobileOpen s
  /\ collapsedClass s = isCollapsed s
  /\ collapseText s = (if isCollapsed s then "+" else minus_label)
  /\ contentDisplay s = (if isCollapsed s then "none" else contentDisplay s)
  /\ (isCollapsed s = false -> contentDisplay s = "" \/ contentDisplay s = "block").

Lemma close_inv (s : SidebarState) : sidebar_inv s -> sidebar_inv (close s).
Proof. intros (H1 & H2 & H3 & H4 & H5). repeat split; simpl; auto. Qed.

Lemma step_inv (s : SidebarState) (e : Event) : sidebar_inv s -> sidebar_inv (step s e).
Proof.
  intros Hs. pose proof Hs as (H1 & H2 & H3 & H4 & H5).
  destruct e as [| | |onLink width|isEscape|width inS inT]; simpl.
  - destruct (isCollapsed s); repeat split; simpl; auto; discriminate.
  - repeat split; simpl; auto. rewrite H1. reflexivity.
  - apply close_inv, Hs.
  - destruct (onLink && Z.leb width 768); [apply close_inv|]; exact Hs.
  - destruct isEscape; [apply close_inv|]; exact Hs.
  - destruct (Z.leb width 768 && mobileActive s && negb inS && negb inT);
      [apply close_inv|]; exact Hs.
Qed.

Definition count_collapse (es : list Event) : nat :=
  List.length (filter (fun e => match e with CollapseClick => true | _ => false end) es).

Lemma run_from_inv (es : list Event) (s : SidebarState) :
  sidebar_inv s -> sidebar_inv (fold_left step es s)
    /\ isCollapsed (fold_left step es s)
       = xorb (isCollapsed s) (Nat.odd (count_collapse es)).
Proof.
  revert s. induction es as [|e es IH]; intros s Hs.
  - simpl. split; [exact Hs|]. destruct (isCollapsed s); reflexivity.
  - simpl fold_left. destruct (IH (step s e) (step_inv s e Hs)) as [Hi Hc].
    split; [exact Hi|]. rewrite Hc. unfold count_collapse. simpl filter.
    destruct e as [| | |onLink width|isEscape|width inS inT]; simpl;
      [ rewrite Nat.odd_succ, <- Nat.negb_odd; destruct (isCollapsed s), (Nat.odd _); reflexivity
      | reflexivity | reflexivity
      | destruct (onLink && Z.leb width 768); reflexivity
      | destruct isEscape; reflexivity
      | destruct (Z.leb width 768 && mobileActive s && negb inS && negb inT); reflexivity ].
Qed.

(** Whatever events the sidebar handlers receive, the mobile class of
    the sidebar and the open class of the toggle button agree, the
    [collapsed] class, the button label ("+" or the minus sign) and the
    hidden content follow [isCollapsed], and the sidebar is collapsed
    exactly when it has received an odd number of clicks on the
    collapse button. *)
Theorem sidebar_invariant (es : list Event) :
  let s := run_events es in
  mobileActive s = tocMobileOpen s
  /\ collapsedClass s = isCollapsed s
  /\ collapseText s = (if isCollapsed s then "+" else minus_label)
  /\ (isCollapsed s = true -> contentDisplay s = "none")
  /\ (isCollapsed s = false -> contentDisplay s = "" \/ contentDisplay s = "block")
  /\ isCollapsed s = Nat.odd (count_collapse es).
Proof.
  unfold run_events.
  assert (H0 : sidebar_inv initial_state)
    by (repeat split; simpl; auto).
  destruct (run_from_inv es initial_state H0) as [(H1 & H2 & H3 & H4 & H5) Hc].
  cbv zeta. repeat split; auto.
  intro Hc'. rewrite H4, Hc'. reflexivity.
Qed.

End TocRuntimeFacts.

Module HeadingsFacts.
Import Js Headings.

Lemma span_spec (p : ascii -> bool) (l : list ascii) :
  fst (Pdf.span p l) ++ snd (Pdf.span p l) = l
  /\ forallb p (fst (Pdf.span p l)) = true.
Proof.
  induction l as [|c l IH]; simpl; [split; reflexivity|].
  destruct (p c) eqn:E; [|split; reflexivity].
  destruct (Pdf.span p l) as [a b]. simpl in *. destruct IH as [H1 H2].
  rewrite H1, E, H2. split; reflexivity.
Qed.

Lemma span_app (p : ascii -> bool) (w t : list ascii) :
  forallb p w = true ->
  match t with [] => True | c :: _ => p c = false end ->
  Pdf.span p (w ++ t) = (w, t).
Proof.
  intros Hw Ht. induction w as [|c w IH]; simpl.
  - destruct t as [|c t]; [reflexivity|]. simpl. rewrite Ht. reflexivity.
  - simpl in Hw. apply andb_prop in Hw as [Hc Hw]. rewrite Hc, (IH Hw). reflexivity.
Qed.

Lemma try_ws_spec (k : nat) (r g : list ascii) :
  try_ws k r = Some g -> g <> [] /\ forallb (fun c => negb (is_term c)) g = true.
Proof.
  induction k as [|k IH]; cbn [try_ws]; [discriminate|].
  pose proof (proj2 (span_spec (fun c => negb (is_term c)) (skipn (S k) r))) as Hf.
  destruct (fst (Pdf.span (fun c => negb (is_term c)) (skipn (S k) r))) as [|c l] eqn:E.
  - exact IH.
  - intro H. injection H as <-. split; [discriminate | exact Hf].
Qed.

Lemma first_heading_spec (b : bool) (s g : list ascii) :
  first_heading b s = Some g -> g <> [] /\ forallb (fun c => negb (is_term c)) g = true.
Proof.
  revert b. induction s as [|c s IH]; intros b; cbn [first_heading].
  - destruct b; simpl; discriminate.
  - destruct (if b then match_heading (c :: s) else None) as [g'|] eqn:E.
    + intro H. injection H as <-. destruct b; [|discriminate].
      simpl in E. destruct (Ascii.ascii_dec c "#"%char) as [->|Hc].
      * exact (try_ws_spec _ _ _ E).
      * destruct c as [[] [] [] [] [] [] [] []]; try discriminate;
          exact (try_ws_spec _ _ _ E).
    + apply IH.
Qed.

Lemma forallb_of_string (f : ascii -> bool) (l : list ascii) :
  list_ascii_of_string (string_of_list_ascii l) = l.
Proof. apply list_ascii_of_string_of_list_ascii. Qed.

(** The title [extractTitle] returns is never empty and lies on one
    line: the group [(.+)] matches at least one character and never a
    line terminator, and the fallback is ["Untitled"]. *)
Theorem extract_title_one_line (content : string) :
  extractTitle content <> ""
  /\ forallb (fun c => negb (is_term c)) (list_ascii_of_string (extractTitle content)) = true.
Proof.
  unfold extractTitle, title_match.
  destruct (first_heading true (list_ascii_of_string content)) as [g|] eqn:E; simpl.
  - destruct (first_heading_spec _ _ _ E) as [Hne Hf].
    rewrite list_ascii_of_string_of_list_ascii. split; [|exact Hf].
    destruct g; [congruence | discriminate].
  - split; [discriminate | reflexivity].
Qed.

Lemma first_heading_no_hash (b : bool) (s : list ascii) :
  ~ In "#"%char s -> first_heading b s = None.
Proof.
  revert b. induction s as [|c s IH]; intros b Hn; cbn [first_heading].
  - destruct b; reflexivity.
  - assert (Hm : (if b then match_heading (c :: s) else None) = None).
    { destruct b; [|reflexivity]. simpl.
      destruct (Ascii.ascii_dec c "#"%char) as [->|Hc];
        [exfalso; apply Hn; left; reflexivity|].
      destruct c as [[] [] [] [] [] [] [] []]; try reflexivity.
      exfalso. apply Hc. reflexivity. }
    rewrite Hm. apply IH. intro H. apply Hn. right. exact H.
Qed.

(** A title line ['#'], a run of whitespace, then a text that starts
    with a non-whitespace character and runs to the end of the line, at
    the start of the content, gives that text as the title; a content
    without any ['#'] has no title: [extractTitle] gives ["Untitled"] and
    the web build falls back to the file name without its [.md]. *)
Theorem title_of_heading_line (w t rest : list ascii) (file : string)
  (Hw : w <> []) (Hws : forallb is_ws w = true)
  (Ht : match t with [] => False | c :: _ => is_ws c = false end)
  (Hterm : forallb (fun c => negb (is_term c)) t = true)
  (Hrest : match rest with [] => True | c :: _ => is_term c = true end) :
  title_match (string_of_list_ascii ("#"%char :: w ++ t ++ rest))
    = Some (string_of_list_ascii t)
  /\ forall content, ~ In "#"%char (list_ascii_of_string content) ->
     extractTitle content = "Untitled"
     /\ chapter_title file content = WebNav.replace_first ".md" "" file.
Proof.
  split.
  - unfold title_match. rewrite list_ascii_of_string_of_list_ascii.
    assert (Hm : match_heading ("#"%char :: w ++ t ++ rest) = Some t).
    { simpl match_heading. cbv beta iota.
      rewrite (span_app is_ws w (t ++ rest) Hws)
        by (destruct t; [contradiction | exact Ht]).
      simpl fst. destruct w as [|c0 w']; [congruence|].
      remember (c0 :: w') as w0 eqn:Hw0.
      destruct (List.length w0) as [|k] eqn:Hk; [subst; discriminate|].
      cbn [try_ws].
      replace (skipn (S k) (w0 ++ t ++ rest)) with (t ++ rest)
        by (rewrite <- Hk, skipn_app, skipn_all, Nat.sub_diag; reflexivity).
      rewrite (span_app _ t rest Hterm)
        by (destruct rest; [exact I | simpl in Hrest |- *; rewrite Hrest; reflexivity]).
      simpl fst. destruct t; [contradiction | reflexivity]. }
    cbn [first_heading]. rewrite Hm. reflexivity.
  - intros content Hn. unfold extractTitle, chapter_title, title_match.
    rewrite (first_heading_no_hash true _ Hn). split; reflexivity.
Qed.

Lemma title_of_heading_line_witness :
  title_match "#  Intro" = Some "Intro".
Proof.
  destruct (title_of_heading_line [" "%char; " "%char] ["I"%char; "n"%char; "t"%char; "r"%char; "o"%char] [] "01-intro.md"
              ltac:(discriminate) eq_refl eq_refl eq_refl I) as [H _].
  exact H.
Defined.

End HeadingsFacts.

Module ValidateChaptersFacts.
Import Js Headings ValidateChapters.

Definition no_ws (w : list ascii) : bool := forallb (fun c => negb (is_ws c)) w.

Lemma split_ws_word (w cur s : list ascii) :
  no_ws w = true -> w <> [] -> forall b,
  split_ws_go cur b (w ++ s) = split_ws_go (cur ++ w) false s.
Proof.
  revert cur. induction w as [|c w IH]; intros cur Hw Hne b; [congruence|].
  unfold no_ws in Hw. simpl in Hw. apply andb_prop in Hw as [Hc Hw].
  simpl. apply negb_true_iff in Hc. rewrite Hc.
  destruct w as [|c' w'].
  - reflexivity.
  - rewrite (IH (cur ++ [c]) Hw ltac:(discriminate) false), <- app_assoc. reflexivity.
Qed.

Lemma split_ws_run (x s : list ascii) :
  forallb is_ws x = true -> split_ws_go [] true (x ++ s) = split_ws_go [] true s.
Proof.
  induction x as [|c x IH]; intro Hx; [reflexivity|].
  simpl in Hx. apply andb_prop in Hx as [Hc Hx]. simpl. rewrite Hc. exact (IH Hx).
Qed.

Lemma split_ws_sep (sep cur s : list ascii) :
  sep <> [] -> forallb is_ws sep = true ->
  split_ws_go cur false (sep ++ s) = cur :: split_ws_go [] true s.
Proof.
  intros Hne Hs. destruct sep as [|c sep]; [congruence|].
  simpl in Hs. apply andb_prop in Hs as [Hc Hs].
  simpl. rewrite Hc. rewrite (split_ws_run sep s Hs). reflexivity.
Qed.

Definition joined (w0 : list ascii) (rest : list (list ascii * list ascii)) : list ascii :=
  w0 ++ List.concat (map (fun p => fst p ++ snd p) rest).

Lemma split_ws_joined (rest : list (list ascii * list ascii)) :
  Forall (fun p => fst p <> [] /\ forallb is_ws (fst p) = true
                   /\ snd p <> [] /\ no_ws (snd p) = true) rest ->
  forall cur, split_ws_go cur false (List.concat (map (fun p => fst p ++ snd p) rest))
              = cur :: map snd rest.
Proof.
  induction rest as [|[sep w] rest IH]; intros Hall cur; [reflexivity|].
  inversion Hall as [|? ? [Hs1 [Hs2 [Hw1 Hw2]]] Hrest]; subst. simpl in *.
  rewrite <- app_assoc, (split_ws_sep sep cur _ Hs1 Hs2).
  rewrite (split_ws_word w [] _ Hw2 Hw1 true). simpl.
  rewrite (IH Hrest w). reflexivity.
Qed.

(** [split(/\s+/)], with which [validateChapters] counts words, gives
    back the words of a text made of words separated by whitespace runs
    of any length: a first word (possibly empty) and then, for each
    further word, a nonempty whitespace run and a nonempty word. So such
    a text counts as many words as it has. *)
Theorem split_ws_words (w0 : list ascii) (rest : list (list ascii * list ascii))
  (H0 : no_ws w0 = true)
  (Hrest : Forall (fun p => fst p <> [] /\ forallb is_ws (fst p) = true
                            /\ snd p <> [] /\ no_ws (snd p) = true) rest) :
  split_ws (string_of_list_ascii (joined w0 rest))
    = map string_of_list_ascii (w0 :: map snd rest)
  /\ List.length (split_ws (string_of_list_ascii (joined w0 rest))) = S (List.length rest).
Proof.
  assert (H : split_ws (string_of_list_ascii (joined w0 rest))
              = map string_of_list_ascii (w0 :: map snd rest)).
  { unfold split_ws, joined. rewrite list_ascii_of_string_of_list_ascii.
    destruct w0 as [|c w0'].
    - rewrite app_nil_l, (split_ws_joined rest Hrest []). reflexivity.
    - rewrite (split_ws_word (c :: w0') [] _ H0 ltac:(discriminate) false).
      rewrite (split_ws_joined rest Hrest). reflexivity. }
  split; [exact H|]. rewrite H. simpl. rewrite !length_map. reflexivity.
Qed.

Lemma split_ws_words_witness :
  split_ws "ab  c" = ["ab"; "c"].
Proof.
  destruct (split_ws_words ["a"%char; "b"%char] [([" "%char; " "%char], ["c"%char])]
              eq_refl ltac:(repeat constructor; discriminate)) as [H _].
  exact H.
Defined.

Lemma flat_map_nil {A B} (f : A -> list B) (l : list A) :
  flat_map f l = [] <-> forall x, In x l -> f x = [].
Proof.
  induction l as [|x l IH]; simpl.
  - split; [intros _ y []|reflexivity].
  - split.
    + intros Hxl. apply app_eq_nil in Hxl as [Hx Hl]. intros y [<-|Hy]; [exact Hx | exact (proj1 IH Hl y Hy)].
    + intros H. rewrite (H x (or_introl eq_refl)). apply IH. intros y Hy. apply H; right; exact Hy.
Qed.

(** [validateChapters] warns about nothing exactly when there is no
    chapter, or every chapter file name starts with two digits and a
    dash, every chapter has a [# ] title line and every chapter has at
    least 100 words. *)
Theorem no_chapter_warnings (markdownFiles : list string) (content : string -> string) :
  chapter_warnings markdownFiles content = []
  <-> markdownFiles = []
      \/ forall f, In f markdownFiles ->
           proper_name f = true /\ title_match (content f) <> None
           /\ 100 <= List.length (split_ws (content f)).
Proof.
  unfold chapter_warnings. destruct markdownFiles as [|f0 fs] eqn:Ef.
  { split; [left; reflexivity | reflexivity]. }
  rewrite <- Ef. split.
  - intro H. right. intros f Hf.
    destruct (forallb proper_name markdownFiles) eqn:Ep; [|discriminate].
    rewrite app_nil_l, flat_map_nil in H. specialize (H f Hf).
    apply app_eq_nil in H as [H1 H2].
    split; [exact (proj1 (forallb_forall _ _) Ep f Hf)|]. split.
    + destruct (title_match (content f)); [discriminate | discriminate H1].
    + destruct (Nat.ltb (List.length (split_ws (content f))) 100) eqn:El;
        [discriminate | apply Nat.ltb_ge, El].
  - intros [H|H]; [congruence|].
    replace (forallb proper_name markdownFiles) with true
      by (symmetry; apply forallb_forall; intros f Hf; apply (H f Hf)).
    rewrite app_nil_l, flat_map_nil. intros f Hf.
    destruct (H f Hf) as [_ [Ht Hl]].
    destruct (title_match (content f)); [|congruence].
    replace (Nat.ltb (List.length (split_ws (content f))) 100) with false
      by (symmetry; apply Nat.ltb_ge, Hl).
    reflexivity.
Qed.

End ValidateChaptersFacts.

Module AnchorsShape.
Import Anchors.

Definition is_hy (c : ascii) : bool := Ascii.eqb c "-"%char.

Fixpoint no_double (l : list ascii) : bool :=
  match l with
  | a :: ((b :: _) as r) => negb (is_hy a && is_hy b) && no_double r
  | _ => true
  end.

Definition anchor_char (c : ascii) : bool := is_az09 c || is_hy c.

Definition head_not_hy (l : list ascii) : bool :=
  match l with c :: _ => negb (is_hy c) | [] => true end.

Lemma collapse_runs_shape (s : list ascii) : forall b,
  forallb anchor_char (collapse_runs b s) = true
  /\ no_double (collapse_runs b s) = true
  /\ (b = true -> head_not_hy (collapse_runs b s) = true).
Proof.
  induction s as [|c s IH]; intro b; simpl; [repeat split|].
  destruct (is_az09 c) eqn:Ec.
  - destruct (IH false) as [H1 [H2 _]].
    assert (Hc : is_hy c = false).
    { unfold is_hy. destruct (Ascii.eqb c "-"%char) eqn:E; [|reflexivity].
      apply Ascii.eqb_eq in E. subst. discriminate. }
    simpl. unfold anchor_char at 1. rewrite Ec, H1. split; [reflexivity|].
    split; [|intros _; simpl; rewrite Hc; reflexivity].
    destruct (collapse_runs false s); [reflexivity|]. rewrite Hc. exact H2.
  - destruct (IH true) as [H1 [H2 H3]].
    destruct b.
    + split; [exact H1|]. split; [exact H2|]. intros _. apply H3. reflexivity.
    + simpl. rewrite H1. split; [reflexivity|]. split; [|discriminate].
      specialize (H3 eq_refl).
      destruct (collapse_runs true s) as [|d r]; [reflexivity|].
      change (negb (is_hy "-"%char && is_hy d) && no_double (d :: r) = true).
      simpl in H3. rewrite H2. destruct (is_hy d); [discriminate|reflexivity].
Qed.

Lemma no_double_app (l r : list ascii) :
  no_double (l ++ r) = true -> no_double l = true /\ no_double r = true.
Proof.
  induction l as [|a l IH]; intro H; [split; [reflexivity|exact H]|].
  destruct l as [|b l].
  - split; [reflexivity|]. destruct r as [|c r]; [reflexivity|].
    simpl in H. apply andb_prop in H. apply H.
  - change (negb (is_hy a && is_hy b) && no_double ((b :: l) ++ r) = true) in H.
    apply andb_prop in H as [H1 H2]. destruct (IH H2) as [H3 H4].
    split; [|exact H4].
    change (negb (is_hy a && is_hy b) && no_double (b :: l) = true).
    rewrite H1, H3. reflexivity.
Qed.

Lemma no_double_pair (l r : list ascii) (a b : ascii) :
  no_double (l ++ a :: b :: r) = true -> negb (is_hy a && is_hy b) = true.
Proof.
  intro H. apply no_double_app in H as [_ H].
  change (negb (is_hy a && is_hy b) && no_double (b :: r) = true) in H.
  apply andb_prop in H. apply H.
Qed.

Lemma strip_hyphens_shape (s : list ascii) :
  no_double s = true ->
  exists p q, s = p ++ strip_hyphens s ++ q
    /\ head_not_hy (strip_hyphens s) = true
    /\ head_not_hy (rev (strip_hyphens s)) = true.
Proof.
  intro Hnd.
  set (s1 := match s with "-"%char :: r => r | _ => s end).
  assert (Hs1 : exists p, s = p ++ s1 /\ head_not_hy s1 = true /\ no_double s1 = true).
  { unfold s1. destruct s as [|c r]; [exists []; repeat split|].
    destruct (Ascii.eqb c "-"%char) eqn:E.
    - apply Ascii.eqb_eq in E. subst c. exists ["-"%char]. split; [reflexivity|].
      destruct r as [|d r]; [split; reflexivity|].
      pose proof (no_double_pair [] r "-"%char d Hnd) as Hp.
      simpl in Hp. split; [simpl; exact Hp|].
      exact (proj2 (no_double_app ["-"%char] (d :: r) Hnd)).
    - assert (Hc : c <> "-"%char) by (intro; subst; discriminate).
      assert (Hm : match c with "-"%char => r | _ => c :: r end = c :: r)
        by (destruct c as [[] [] [] [] [] [] [] []]; try reflexivity;
            exfalso; apply Hc; reflexivity).
      rewrite Hm. exists []. split; [reflexivity|].
      split; [|exact Hnd]. simpl. unfold is_hy. rewrite E. reflexivity. }
  destruct Hs1 as [p [Hp [Hh1 Hnd1]]].
  assert (Hstrip : strip_hyphens s = match rev s1 with "-"%char :: r => rev r | _ => s1 end)
    by reflexivity.
  rewrite Hstrip.
  destruct (rev s1) as [|c r] eqn:Er.
  - exists p, []. rewrite app_nil_r. split; [exact Hp|]. split; [exact Hh1|]. rewrite Er. reflexivity.
  - assert (Hs1r : s1 = rev r ++ [c]) by (rewrite <- (rev_involutive s1), Er; reflexivity).
    destruct (Ascii.eqb c "-"%char) eqn:E.
    + apply Ascii.eqb_eq in E. subst c.
      change (exists p0 q, s = p0 ++ rev r ++ q /\ head_not_hy (rev r) = true
              /\ head_not_hy (rev (rev r)) = true).
      exists p, ["-"%char]. split; [rewrite Hp, Hs1r, app_assoc; reflexivity|].
      split.
      * rewrite Hs1r in Hh1. destruct (rev r); [reflexivity|exact Hh1].
      * rewrite rev_involutive. destruct r as [|d r']; [reflexivity|].
        rewrite Hs1r in Hnd1. simpl rev in Hnd1. rewrite <- app_assoc in Hnd1.
        pose proof (no_double_pair (rev r') [] d "-"%char Hnd1) as Hq.
        change (is_hy "-"%char) with true in Hq. rewrite andb_true_r in Hq.
        exact Hq.
    + assert (Hres : match c :: r with "-"%char :: r0 => rev r0 | _ => s1 end = s1).
      { destruct c as [[] [] [] [] [] [] [] []]; try reflexivity; discriminate. }
      rewrite Hres.
      exists p, []. rewrite app_nil_r. split; [exact Hp|]. split; [exact Hh1|].
      rewrite Er. unfold head_not_hy, is_hy. rewrite E. reflexivity.
Qed.

Lemma collapse_runs_in_run (l : list ascii) :
  forallb (fun c => negb (is_az09 c)) l = true -> collapse_runs true l = [].
Proof.
  induction l as [|c l IH]; intros H; [reflexivity|].
  simpl in H |- *. apply andb_prop in H as [Hc H].
  destruct (is_az09 c); [discriminate Hc | exact (IH H)].
Qed.

Lemma collapse_runs_no_az09 (l : list ascii) : forall b,
  forallb (fun c => negb (is_az09 c)) l = true ->
  collapse_runs b l = [] \/ collapse_runs b l = ["-"%char].
Proof.
  intros b H. destruct l as [|c l]; [left; reflexivity|].
  pose proof H as H'. simpl in H'. apply andb_prop in H' as [Hc Hl].
  simpl. destruct (is_az09 c); [discriminate Hc|].
  rewrite (collapse_runs_in_run l Hl). destruct b; [left | right]; reflexivity.
Qed.

Lemma anchor_shape_core (t : string) :
  let a := list_ascii_of_string (anchor_of t) in
  forallb anchor_char a = true /\ no_double a = true
  /\ head_not_hy a = true /\ head_not_hy (rev a) = true.
Proof.
  cbv zeta. unfold anchor_of. rewrite list_ascii_of_string_of_list_ascii.
  set (c := collapse_runs false (map lower (list_ascii_of_string t))).
  destruct (collapse_runs_shape (map lower (list_ascii_of_string t)) false)
    as [Hf [Hnd _]]. fold c in Hf, Hnd.
  destruct (strip_hyphens_shape c Hnd) as [p [q [Hc [Hh1 Hh2]]]].
  rewrite Hc in Hf, Hnd.
  rewrite !forallb_app in Hf. apply andb_prop in Hf as [_ Hf]. apply andb_prop in Hf as [Hf _].
  apply no_double_app in Hnd as [_ Hnd]. apply no_double_app in Hnd as [Hnd _].
  repeat split; assumption.
Qed.


(** Every Kindle TOC anchor is a valid fragment made of [a-z], [0-9] and
    hyphens, with no two hyphens in a row and no hyphen at either end.
    A heading of ASCII characters without any letter or digit gets the
    empty anchor. *)
Theorem anchor_shape (t : string) :
  let a := list_ascii_of_string (anchor_of t) in
  forallb anchor_char a = true /\ no_double a = true
  /\ head_not_hy a = true /\ head_not_hy (rev a) = true
  /\ (forallb (fun c => Nat.ltb (nat_of_ascii c) 128 && negb (is_az09 (lower c)))
        (list_ascii_of_string t) = true -> anchor_of t = EmptyString).
Proof.
  destruct (anchor_shape_core t) as (H1 & H2 & H3 & H4).
  cbv zeta in *. repeat split; try assumption.
  intro H. unfold anchor_of.
  assert (Hl : forallb (fun c => negb (is_az09 c)) (map lower (list_ascii_of_string t)) = true).
  { clear H1 H2 H3 H4. induction (list_ascii_of_string t) as [|c l IH]; [reflexivity|].
    simpl in H |- *. apply andb_prop in H as [Hc H].
    apply andb_prop in Hc as [_ Hc]. rewrite Hc. exact (IH H). }
  destruct (collapse_runs_no_az09 _ false Hl) as [-> | ->]; reflexivity.
Qed.

Lemma anchor_shape_witness :
  anchor_of "-- ? --" = EmptyString.
Proof. apply (proj2 (proj2 (proj2 (proj2 (anchor_shape "-- ? --"))))). reflexivity. Defined.

End AnchorsShape.

Module GroupingPartition.
Import Grouping.

Definition node_items (n : Node) : list nat :=
  match n with Group _ items => items | Flat i => [i] end.

Definition keyed_ok (titles : list string) (gs : list (string * list nat)) : Prop :=
  forall k items, In (k, items) gs -> items <> [] /\
    forall i, In i items -> exists t, nth_error titles i = Some t /\ extractChapterPrefix t = k.

Lemma add_to_group_perm (k : string) (item : nat) (gs : list (string * list nat)) :
  Permutation (flat_map snd (add_to_group k item gs)) (flat_map snd gs ++ [item]).
Proof.
  induction gs as [|[k' items] gs IH]; simpl; [reflexivity|].
  destruct (String.eqb k k'); simpl.
  - rewrite <- !app_assoc. apply Permutation_app_head. apply Permutation_app_comm.
  - rewrite <- app_assoc. apply Permutation_app_head. exact IH.
Qed.

Lemma add_to_group_keys (k : string) (item : nat) (gs : list (string * list nat)) :
  NoDup (map fst gs) -> NoDup (map fst (add_to_group k item gs))
  /\ forall k', In k' (map fst (add_to_group k item gs)) -> k' = k \/ In k' (map fst gs).
Proof.
  induction gs as [|[k' items] gs IH]; intro Hnd; simpl.
  - split; [constructor; [intros []|constructor]|]. intros k0 [<-|[]]. left; reflexivity.
  - inversion Hnd as [|? ? Hni Hnd']; subst.
    destruct (String.eqb k k') eqn:E; simpl.
    + split; [exact Hnd|]. intros k0 H. right. exact H.
    + destruct (IH Hnd') as [H1 H2]. split.
      * constructor; [|exact H1]. intro Hin. destruct (H2 k' Hin) as [Heq|Hin'].
        -- subst. rewrite String.eqb_refl in E. discriminate.
        -- exact (Hni Hin').
      * intros k0 [<-|Hin]; [right; left; reflexivity|].
        destruct (H2 k0 Hin) as [H|H]; [left; exact H | right; right; exact H].
Qed.

Lemma add_to_group_ok (titles : list string) (k : string) (item : nat) (t : string)
  (gs : list (string * list nat)) :
  nth_error titles item = Some t -> extractChapterPrefix t = k ->
  keyed_ok titles gs -> keyed_ok titles (add_to_group k item gs).
Proof.
  intros Ht Hk. induction gs as [|[k' items] gs IH]; intro Hok; simpl.
  - intros k0 items0 [Heq|[]]. injection Heq as <- <-.
    split; [discriminate|]. intros i [<-|[]]. exists t. split; assumption.
  - destruct (String.eqb k k') eqn:E.
    + apply String.eqb_eq in E. subst k'.
      intros k0 items0 [Heq|Hin].
      * injection Heq as <- <-. split; [destruct items; discriminate|].
        intros i Hi. apply in_app_or in Hi as [Hi|[<-|[]]].
        -- exact (proj2 (Hok k items (or_introl eq_refl)) i Hi).
        -- exists t. split; assumption.
      * exact (Hok k0 items0 (or_intror Hin)).
    + intros k0 items0 [Heq|Hin].
      * injection Heq as <- <-. exact (Hok k' items (or_introl eq_refl)).
      * refine (IH _ k0 items0 Hin). intros k1 items1 H1. exact (Hok k1 items1 (or_intror H1)).
Qed.

Lemma in_combine_seq (l : list string) : forall k i t,
  In (i, t) (combine (seq k (List.length l)) l) -> k <= i /\ nth_error l (i - k) = Some t.
Proof.
  induction l as [|x l IH]; intros k i t Hin; [destruct Hin|].
  simpl in Hin. destruct Hin as [Heq|Hin].
  - injection Heq as <- <-. rewrite Nat.sub_diag. split; [lia|reflexivity].
  - destruct (IH (S k) i t Hin) as [Hle Hn]. split; [lia|].
    replace (i - k) with (S (i - S k)) by lia. exact Hn.
Qed.

Lemma map_fst_combine_seq (l : list string) : forall k,
  map fst (combine (seq k (List.length l)) l) = seq k (List.length l).
Proof. induction l as [|x l IH]; intro k; simpl; [reflexivity|]. rewrite IH. reflexivity. Qed.

Lemma build_groups_spec (titles : list string) :
  Permutation (flat_map snd (build_groups titles)) (seq 0 (List.length titles))
  /\ keyed_ok titles (build_groups titles)
  /\ NoDup (map fst (build_groups titles)).
Proof.
  unfold build_groups.
  assert (G : forall L gs,
    (forall i t, In (i, t) L -> nth_error titles i = Some t) ->
    keyed_ok titles gs -> NoDup (map fst gs) ->
    let r := fold_left (fun gs it => add_to_group (extractChapterPrefix (snd it)) (fst it) gs) L gs in
    Permutation (flat_map snd r) (flat_map snd gs ++ map fst L)
    /\ keyed_ok titles r /\ NoDup (map fst r)).
  { induction L as [|[i t] L IH]; intros gs HL Hok Hnd; simpl.
    - rewrite app_nil_r. split; [reflexivity|]. split; assumption.
    - destruct (IH (add_to_group (extractChapterPrefix t) i gs))
        as [H1 [H2 H3]].
      + intros i' t' H. apply HL. right. exact H.
      + apply (add_to_group_ok titles _ i t); [apply HL; left; reflexivity | reflexivity | exact Hok].
      + apply add_to_group_keys, Hnd.
      + split; [|split; assumption].
        rewrite H1. rewrite (add_to_group_perm _ i gs). rewrite <- app_assoc. reflexivity. }
  destruct (G (combine (seq 0 (List.length titles)) titles) [])
    as [H1 [H2 H3]].
  - intros i t Hin. destruct (in_combine_seq titles 0 i t Hin) as [_ Hn].
    rewrite Nat.sub_0_r in Hn. exact Hn.
  - intros k items [].
  - constructor.
  - split; [|split; assumption].
    rewrite H1. simpl. rewrite map_fst_combine_seq. reflexivity.
Qed.

(** When [groupChaptersByPrefix] regroups the navigator, every chapter
    appears exactly once among the nodes (no chapter is lost or
    duplicated), every chapter of a group has the group's header as its
    prefix, and no two groups share a header. *)
Theorem grouping_partition (titles : list string) (nodes : list Node)
  (H : groupChaptersByPrefix titles = Some nodes) :
  Permutation (flat_map node_items nodes) (seq 0 (List.length titles))
  /\ (forall h items, In (Group h items) nodes -> forall i, In i items ->
        exists t, nth_error titles i = Some t /\ extractChapterPrefix t = h)
  /\ NoDup (flat_map (fun n => match n with Group h _ => [h] | Flat _ => [] end) nodes).
Proof.
  unfold groupChaptersByPrefix in H.
  destruct (Nat.ltb 1 _); [|discriminate]. injection H as <-.
  destruct (build_groups_spec titles) as [Hp [Hok Hnd]].
  set (gs := build_groups titles) in *.
  split; [|split].
  - rewrite <- Hp. clear Hp Hnd. induction gs as [|[k items] gs IH]; [reflexivity|].
    simpl. rewrite IH by (intros k0 i0 Hin; apply Hok; right; exact Hin).
    destruct (Nat.ltb 1 (List.length items)) eqn:El; simpl; [reflexivity|].
    destruct (Hok k items (or_introl eq_refl)) as [Hne _].
    destruct items as [|x [|y r]]; [congruence | reflexivity | discriminate El].
  - intros h items Hin i Hi. apply in_map_iff in Hin as [[k items'] [Hg Hin]].
    simpl in Hg. destruct (Nat.ltb 1 (List.length items')); [|discriminate].
    injection Hg as <- <-. exact (proj2 (Hok _ _ Hin) i Hi).
  - clear Hp Hok. induction gs as [|[k items] gs IH]; simpl; [constructor|].
    inversion Hnd as [|? ? Hni Hnd']; subst.
    destruct (Nat.ltb 1 (List.length items)); simpl; [|exact (IH Hnd')].
    constructor; [|exact (IH Hnd')].
    intro Hin. apply Hni. clear -Hin.
    induction gs as [|[k' items'] gs IH]; [destruct Hin|].
    simpl in Hin |- *. destruct (Nat.ltb 1 (List.length items')); simpl in Hin.
    + destruct Hin as [->|Hin]; [left; reflexivity | right; exact (IH Hin)].
    + right. exact (IH Hin).
Qed.

Lemma grouping_partition_witness :
  Permutation
    (flat_map node_items [Group "Part 1" [0; 1]; Group "Part 2" [2; 3]; Flat 4])
    (seq 0 5).
Proof.
  apply (proj1 (grouping_partition ["Part 1: A"; "Part 1: B"; "Part 2: C"; "Part 2: D"; "Intro"]
                  [Group "Part 1" [0; 1]; Group "Part 2" [2; 3]; Flat 4]
                  ltac:(vm_compute; reflexivity))).
Defined.

End GroupingPartition.

Module JsNumberFacts.
Import JsNumber.
Local Open Scope Z_scope.

Lemma div_eucl_pair (n d : Z) : Z.div_eucl n d = (n / d, n mod d).
Proof. unfold Z.div, Z.modulo. destruct (Z.div_eucl n d); reflexivity. Qed.

Lemma round_half_even_bounds (n d : Z) : 0 < d ->
  n / d <= round_half_even n d /\ 2 * d * round_half_even n d <= 2 * n + d.
Proof.
  intro Hd. unfold round_half_even. rewrite div_eucl_pair.
  pose proof (Z.div_mod n d ltac:(lia)). pose proof (Z.mod_pos_bound n d Hd).
  destruct ((d <? 2 * (n mod d)) || ((2 * (n mod d) =? d) && Z.odd (n / d))) eqn:E.
  - apply orb_true_iff in E as [E|E].
    + apply Z.ltb_lt in E. lia.
    + apply andb_prop in E as [E _]. apply Z.eqb_eq in E. lia.
  - lia.
Qed.

Lemma round_half_even_exact (a d : Z) : 0 < d -> round_half_even (a * d) d = a.
Proof.
  intro Hd. destruct (round_half_even_bounds (a * d) d Hd) as [Lo Up].
  rewrite Z.div_mul in Lo by lia. nia.
Qed.

Lemma of_Z_exact (z : Z) : 0 <= z <= 2 ^ 53 -> of_Z z = Fin z.
Proof.
  intros [H0 H1]. unfold of_Z, floor_round.
  destruct (Z.eqb_spec z 0) as [->|Hz]; [reflexivity|].
  replace (0 <? z) with true by (symmetry; apply Z.ltb_lt; lia).
  destruct (Z.eq_dec z (2 ^ 53)) as [->|Hne]; [vm_compute; reflexivity|].
  assert (Hl : Z.log2 z <= 52).
  { apply Z.lt_succ_r. apply Z.log2_lt_pow2; lia. }
  pose proof (Z.log2_nonneg z).
  unfold round_pos, ilog2_rat.
  replace (1 <=? z) with true by (symmetry; apply Z.leb_le; lia).
  rewrite Z.div_1_r.
  replace (Z.max (Z.log2 z - 52) (-1074)) with (Z.log2 z - 52) by lia.
  destruct (Z.leb_spec 0 (Z.log2 z - 52)) as [Hs|Hs].
  - replace (Z.log2 z - 52) with 0 by lia. rewrite !Z.pow_0_r, Z.mul_1_l.
    assert (Hr : round_half_even z 1 = z)
      by (pose proof (round_half_even_exact z 1 ltac:(lia)) as E; rewrite Z.mul_1_r in E; exact E).
    rewrite Hr.
    assert (2 ^ 53 < 2 ^ 1024) by (apply Z.pow_lt_mono_r; lia).
    replace (2 ^ 1024 <=? z * 1) with false by (symmetry; apply Z.leb_gt; lia).
    unfold dy_floor. cbn -[Z.pow]. f_equal. lia.
  - set (t := - (Z.log2 z - 52)).
    assert (Ht : 0 < 2 ^ t) by (apply Z.pow_pos_nonneg; lia).
    rewrite <- (Z.mul_1_r (z * 2 ^ t)). rewrite round_half_even_exact by lia.
    rewrite andb_false_r. unfold dy_floor.
    replace (0 <=? Z.log2 z - 52) with false by (symmetry; apply Z.leb_gt; lia).
    fold t. rewrite Z.div_mul by lia. reflexivity.
Qed.

Lemma floor_round_div5 (m : Z) : 0 <= m < 2 ^ 53 -> floor_round m 5 = Fin (m / 5).
Proof.
  intros [H0 H1]. destruct (Z_lt_le_dec m 5) as [Hs|Hb].
  - assert (m = 0 \/ m = 1 \/ m = 2 \/ m = 3 \/ m = 4) as Hm by lia.
    destruct Hm as [->|[->|[->|[->| ->]]]]; vm_compute; reflexivity.
  - unfold floor_round.
    replace (m =? 0) with false by (symmetry; apply Z.eqb_neq; lia).
    replace (0 <? m) with true by (symmetry; apply Z.ltb_lt; lia).
    unfold round_pos, ilog2_rat.
    replace (5 <=? m) with true by (symmetry; apply Z.leb_le; lia).
    assert (Hq : 1 <= m / 5) by (apply Z.div_le_lower_bound; lia).
    assert (Hq2 : m / 5 < 2 ^ 51) by (apply Z.div_lt_upper_bound; lia).
    assert (Hl : Z.log2 (m / 5) <= 50).
    { apply Z.lt_succ_r. apply Z.log2_lt_pow2; lia. }
    pose proof (Z.log2_nonneg (m / 5)).
    replace (Z.max (Z.log2 (m / 5) - 52) (-1074)) with (Z.log2 (m / 5) - 52) by lia.
    replace (0 <=? Z.log2 (m / 5) - 52) with false by (symmetry; apply Z.leb_gt; lia).
    rewrite andb_false_r. unfold dy_floor.
    replace (0 <=? Z.log2 (m / 5) - 52) with false by (symmetry; apply Z.leb_gt; lia).
    set (t := - (Z.log2 (m / 5) - 52)).
    assert (Ht2 : 2 <= t) by lia.
    assert (Hp : 4 <= 2 ^ t).
    { change 4 with (2 ^ 2). apply Z.pow_le_mono_r; lia. }
    destruct (round_half_even_bounds (m * 2 ^ t) 5 ltac:(lia)) as [Lo Up].
    set (k := round_half_even (m * 2 ^ t) 5) in *.
    f_equal. symmetry.
    pose proof (Z.div_mod m 5 ltac:(lia)). pose proof (Z.mod_pos_bound m 5 ltac:(lia)).
    set (Q := m / 5) in *. set (r := m mod 5) in *.
    assert (HL : Q * 2 ^ t <= k).
    { assert (Q * 2 ^ t <= m * 2 ^ t / 5); [|lia].
      apply Z.div_le_lower_bound; [lia|]. nia. }
    assert (HU : k < (Q + 1) * 2 ^ t) by nia.
    apply Z.div_unique_pos with (r := k - Q * 2 ^ t); [lia|ring].
Qed.

Lemma of_Z_above (z : Z) : 2 ^ 53 <= z ->
  of_Z z = PosInf \/ exists c, of_Z z = Fin c /\ 2 ^ 53 <= c.
Proof.
  intro H. unfold of_Z, floor_round.
  replace (z =? 0) with false by (symmetry; apply Z.eqb_neq; lia).
  replace (0 <? z) with true by (symmetry; apply Z.ltb_lt; lia).
  unfold round_pos, ilog2_rat.
  replace (1 <=? z) with true by (symmetry; apply Z.leb_le; lia).
  rewrite Z.div_1_r.
  assert (He : 53 <= Z.log2 z).
  { rewrite <- (Z.log2_pow2 53) by lia. apply Z.log2_le_mono. exact H. }
  replace (Z.max (Z.log2 z - 52) (-1074)) with (Z.log2 z - 52) by lia.
  replace (0 <=? Z.log2 z - 52) with true by (symmetry; apply Z.leb_le; lia).
  destruct (_ && _); [left; reflexivity|right].
  eexists; split; [reflexivity|].
  unfold dy_floor. replace (0 <=? Z.log2 z - 52) with true by (symmetry; apply Z.leb_le; lia).
  set (s := Z.log2 z - 52).
  assert (Hs : 0 < 2 ^ s) by (apply Z.pow_pos_nonneg; lia).
  destruct (round_half_even_bounds z (1 * 2 ^ s) ltac:(lia)) as [Lo _].
  rewrite Z.mul_1_l in *.
  destruct (Z.log2_spec z ltac:(lia)) as [Hlo _].
  assert (Hk : 2 ^ 52 <= z / 2 ^ s).
  { apply Z.div_le_lower_bound; [lia|].
    rewrite <- Z.pow_add_r by lia. replace (s + 52) with (Z.log2 z) by lia. exact Hlo. }
  assert (2 ^ 52 * 2 ^ s <= round_half_even z (2 ^ s) * 2 ^ s) by nia.
  rewrite <- Z.pow_add_r in H0 by lia.
  assert (2 ^ 53 <= 2 ^ (52 + s)) by (apply Z.pow_le_mono_r; lia). lia.
Qed.

Lemma roundtrips_small (z c : Z) : 0 < z < 2 ^ 53 -> 0 <= c ->
  roundtrips z c = true -> c = z.
Proof.
  intros Hz Hc. unfold roundtrips.
  destruct (Z_le_gt_dec c (2 ^ 53)) as [Hle|Hgt].
  - rewrite of_Z_exact by lia. intro E. apply Z.eqb_eq in E. lia.
  - destruct (of_Z_above c ltac:(lia)) as [->|[c' [-> Hc']]]; [discriminate|].
    intro E. apply Z.eqb_eq in E. lia.
Qed.

Lemma shortest_go_small (z n : Z) (fuel : nat) : forall k,
  0 < z < 2 ^ 53 -> shortest_go z n fuel k = z.
Proof.
  induction fuel as [|f IH]; intros k Hz; [reflexivity|].
  cbn [shortest_go].
  set (u := 10 ^ (n - k)).
  assert (Hu : 0 <= u) by (apply Z.pow_nonneg; lia).
  assert (Hlo : 0 <= z / u * u).
  { destruct (Z.eq_dec u 0) as [->|Hu0]; [rewrite Z.mul_0_r; lia|].
    apply Z.mul_nonneg_nonneg; [apply Z.div_pos|]; lia. }
  destruct (roundtrips z (z / u * u)) eqn:E1, (roundtrips z (z / u * u + u)) eqn:E2.
  - apply roundtrips_small in E1; [|lia|lia].
    apply roundtrips_small in E2; [|lia|lia].
    destruct (_ <? _); [exact E1|]. destruct (_ <? _); [exact E2|].
    destruct (Z.even _); assumption.
  - apply roundtrips_small in E1; [exact E1|lia|lia].
  - apply roundtrips_small in E2; [exact E2|lia|lia].
  - apply IH. exact Hz.
Qed.

Lemma to_string_small (z : Z) : 0 < z < 2 ^ 53 -> to_string (Fin z) = Z_to_string z.
Proof.
  intro Hz. unfold to_string.
  replace (z =? 0) with false by (symmetry; apply Z.eqb_neq; lia).
  replace (0 <? z) with true by (symmetry; apply Z.ltb_lt; lia).
  unfold pos_to_string, shortest. rewrite shortest_go_small by exact Hz.
  replace (z <? 10 ^ 21) with true; [reflexivity|].
  symmetry. apply Z.ltb_lt.
  assert (2 ^ 53 < 10 ^ 21) by (vm_compute; reflexivity). lia.
Qed.

End JsNumberFacts.

Module GroupingLabels.
Import Grouping.

Lemma digits_prefix_app (ds rest : list ascii) :
  forallb is_digit ds = true ->
  match rest with [] => True | c :: _ => is_digit c = false end ->
  digits_prefix (ds ++ rest) = ds.
Proof.
  intros Hd Hr. induction ds as [|c ds IH]; simpl.
  - destruct rest as [|c r]; [reflexivity|]. simpl. rewrite Hr. reflexivity.
  - simpl in Hd. apply andb_prop in Hd as [Hc Hd]. rewrite Hc, (IH Hd). reflexivity.
Qed.

(** The label arithmetic of [extractChapterPrefix] on doubles agrees
    with exact integer arithmetic up to [2^53 - 5]. *)
Lemma chapter_label_exact (n : Z) : (1 <= n)%Z -> (n + 5 <= 2 ^ 53)%Z ->
  let num := JsNumber.of_Z n in
  let groupStart :=
    JsNumber.add (JsNumber.mul (JsNumber.floor_div (JsNumber.add num (-1)) 5) 5) 1 in
  let groupEnd := JsNumber.add (JsNumber.add groupStart 5) (-1) in
  JsNumber.to_string groupStart = Z_to_string (5 * ((n - 1) / 5) + 1)
  /\ JsNumber.to_string groupEnd = Z_to_string (5 * ((n - 1) / 5) + 1 + 4).
Proof.
  intros H1 H2. cbv zeta.
  pose proof (Z.div_mod (n - 1) 5 ltac:(lia)).
  pose proof (Z.mod_pos_bound (n - 1) 5 ltac:(lia)).
  set (q := ((n - 1) / 5)%Z) in *.
  rewrite (JsNumberFacts.of_Z_exact n) by lia. cbn [JsNumber.add].
  rewrite (JsNumberFacts.of_Z_exact (n + -1)) by lia. cbn [JsNumber.floor_div].
  rewrite JsNumberFacts.floor_round_div5 by lia.
  replace ((n + -1) / 5)%Z with q by (unfold q; f_equal; lia).
  cbn [JsNumber.mul]. rewrite (JsNumberFacts.of_Z_exact (q * 5)) by lia.
  cbn [JsNumber.add].
  rewrite (JsNumberFacts.of_Z_exact (q * 5 + 1)) by lia. cbn [JsNumber.add].
  rewrite (JsNumberFacts.of_Z_exact (q * 5 + 1 + 5)) by lia. cbn [JsNumber.add].
  rewrite (JsNumberFacts.of_Z_exact (q * 5 + 1 + 5 + -1)) by lia.
  rewrite !JsNumberFacts.to_string_small by lia.
  split; unfold JsNumber.Z_to_string, Z_to_string; do 2 f_equal; lia.
Qed.

(** A title ["Chapter n..."] (with [n] written in decimal, [1 <= n],
    [n + 5 <= 2^53], and no digit right after it) falls in the group
    ["Chapters a-b"] of five consecutive numbers that contains [n],
    starting at [a = 5q + 1]; a title ["Part n..."] falls in the group
    ["Part n"]. *)
Theorem chapter_prefix_label (ds rest : list ascii)
  (Hne : ds <> []) (Hd : forallb is_digit ds = true)
  (Hr : match rest with [] => True | c :: _ => is_digit c = false end)
  (Hn : (1 <= parse_digits ds)%Z) (Hb : (parse_digits ds + 5 <= 2 ^ 53)%Z) :
  (exists q, let a := (5 * q + 1)%Z in
     extractChapterPrefix (string_of_list_ascii (list_ascii_of_string "Chapter " ++ ds ++ rest))
     = String.append "Chapters "
         (String.append (Z_to_string a) (String.append "-" (Z_to_string (a + 4))))
     /\ (a <= parse_digits ds <= a + 4)%Z)
  /\ extractChapterPrefix (string_of_list_ascii (list_ascii_of_string "Part " ++ ds ++ rest))
     = String.append "Part " (string_of_list_ascii ds).
Proof.
  split.
  - exists ((parse_digits ds - 1) / 5)%Z. cbv zeta.
    unfold extractChapterPrefix. rewrite list_ascii_of_string_of_list_ascii.
    change (match_ci (list_ascii_of_string "Part ")
              (list_ascii_of_string "Chapter " ++ ds ++ rest)) with (@None (list ascii)).
    cbv iota.
    change (match_ci (list_ascii_of_string "Chapter ")
              (list_ascii_of_string "Chapter " ++ ds ++ rest)) with (Some (ds ++ rest)).
    cbv iota.
    rewrite (digits_prefix_app ds rest Hd Hr).
    destruct ds as [|c ds']; [congruence|].
    set (n := parse_digits (c :: ds')) in *.
    destruct (chapter_label_exact n Hn Hb) as [E1 E2]. cbv zeta in E1, E2.
    split.
    + rewrite E1, E2. reflexivity.
    + pose proof (Z.div_mod (n - 1) 5 ltac:(lia)).
      pose proof (Z.mod_pos_bound (n - 1) 5 ltac:(lia)). lia.
  - unfold extractChapterPrefix. rewrite list_ascii_of_string_of_list_ascii.
    change (match_ci (list_ascii_of_string "Part ")
              (list_ascii_of_string "Part " ++ ds ++ rest)) with (Some (ds ++ rest)).
    cbv iota.
    rewrite (digits_prefix_app ds rest Hd Hr).
    destruct ds as [|c ds']; [congruence|]. reflexivity.
Qed.

Lemma chapter_prefix_label_witness :
  extractChapterPrefix "Chapter 12: Loops" = "Chapters 11-15".
Proof.
  destruct (chapter_prefix_label ["1"%char; "2"%char] [":"%char; " "%char; "L"%char; "o"%char; "o"%char; "p"%char; "s"%char]
              ltac:(discriminate) eq_refl eq_refl ltac:(vm_compute; discriminate)
              ltac:(vm_compute; discriminate)) as [[q [H Hb]] _].
  assert (E12 : parse_digits ["1"%char; "2"%char] = 12%Z) by reflexivity.
  rewrite E12 in Hb.
  change (string_of_list_ascii
            (list_ascii_of_string "Chapter " ++
             ["1"%char; "2"%char] ++ [":"%char; " "%char; "L"%char; "o"%char; "o"%char; "p"%char; "s"%char]))
    with "Chapter 12: Loops" in H.
  rewrite H. assert (Hq : q = 2%Z) by lia. subst q. vm_compute. reflexivity.
Defined.

End GroupingLabels.

Module PdfImages.
Import Pdf StrFacts.

Lemma replace_imgs_no_bang (fuel : nat) (s : list ascii) :
  ~ In "!"%char s -> replace_imgs fuel s = s.
Proof.
  revert s. induction fuel as [|f IH]; intros s Hn; [reflexivity|].
  destruct s as [|c r]; [reflexivity|]. cbn [replace_imgs].
  assert (Hm : match_img (c :: r) = None).
  { unfold match_img. destruct (Ascii.ascii_dec c "!"%char) as [->|Hc];
      [exfalso; apply Hn; left; reflexivity|].
    destruct c as [[] [] [] [] [] [] [] []]; try reflexivity. exfalso; apply Hc; reflexivity. }
  rewrite Hm, IH; [reflexivity|]. intro H. apply Hn. right. exact H.
Qed.

Lemma strip_prefix_app (p x : list ascii) : strip_prefix p (p ++ x) = Some x.
Proof. induction p as [|c p IH]; simpl; [reflexivity|]. rewrite Ascii.eqb_refl. exact IH. Qed.

Lemma replace_imgs_step (f : nat) (c : ascii) (r alt nm rest : list ascii) :
  match_img (c :: r) = Some (alt, nm, rest) ->
  replace_imgs (S f) (c :: r)
  = list_ascii_of_string "![" ++ alt ++ list_ascii_of_string "](images/"
    ++ nm ++ list_ascii_of_string ")" ++ replace_imgs f rest.
Proof. intro H. cbn [replace_imgs]. rewrite H. reflexivity. Qed.

Definition img_prefixes : list string := [""; "../"; "src/"; "../src/"].

Lemma img_path_prefix (pre : string) (x : list ascii) :
  In pre img_prefixes ->
  opt_prefix (list_ascii_of_string "src/")
    (opt_prefix (list_ascii_of_string "../")
       (list_ascii_of_string pre ++ list_ascii_of_string "images/" ++ x))
  = list_ascii_of_string "images/" ++ x.
Proof.
  intros [<-|[<-|[<-|[<-|[]]]]]; reflexivity.
Qed.

(** [processImagePaths] rewrites an image link ["![alt](p)"] whose path
    [p] is ["images/name"] behind an optional ["../"] and an optional
    ["src/"] into ["![alt](images/name)"] (the alt text has no ["]"], the
    name is not empty and has no [")"]), and leaves a text without ["!"]
    unchanged. *)
Theorem image_link_normalised (alt nm rest : list ascii) (pre : string)
  (Hpre : In pre img_prefixes)
  (Halt : forallb (fun c => negb (Ascii.eqb c "]"%char)) alt = true)
  (Hnm : nm <> []) (Hnm' : forallb (fun c => negb (Ascii.eqb c ")"%char)) nm = true)
  (Hrest : ~ In "!"%char rest) :
  processImagePaths
    (string_of_list_ascii
       (list_ascii_of_string "![" ++ alt ++ list_ascii_of_string "](" ++ list_ascii_of_string pre
        ++ list_ascii_of_string "images/" ++ nm ++ list_ascii_of_string ")" ++ rest))
  = string_of_list_ascii
      (list_ascii_of_string "![" ++ alt ++ list_ascii_of_string "](images/"
       ++ nm ++ list_ascii_of_string ")" ++ rest)
  /\ processImagePaths (string_of_list_ascii rest) = string_of_list_ascii rest.
Proof.
  split.
  - unfold processImagePaths. rewrite list_ascii_of_string_of_list_ascii. f_equal.
    set (s := list_ascii_of_string "![" ++ alt ++ list_ascii_of_string "](" ++ list_ascii_of_string pre
        ++ list_ascii_of_string "images/" ++ nm ++ list_ascii_of_string ")" ++ rest).
    assert (Hm : match_img s = Some (alt, nm, rest)).
    { unfold s, match_img. cbn [list_ascii_of_string app].
      rewrite (HeadingsFacts.span_app _ alt _ Halt) by reflexivity.
      cbv iota beta.
      pose proof (img_path_prefix pre (nm ++ list_ascii_of_string ")" ++ rest) Hpre) as Hp.
      cbn [list_ascii_of_string app] in Hp. rewrite Hp.
      cbn -[span].
      rewrite (HeadingsFacts.span_app _ nm _ Hnm') by reflexivity.
      destruct nm; [congruence | reflexivity]. }
    clearbody s. destruct s as [|c r]; [discriminate Hm|].
    rewrite (replace_imgs_step _ c r alt nm rest Hm).
    rewrite replace_imgs_no_bang by exact Hrest. reflexivity.
  - unfold processImagePaths. rewrite list_ascii_of_string_of_list_ascii.
    rewrite replace_imgs_no_bang by exact Hrest. reflexivity.
Qed.

Lemma image_link_normalised_witness :
  processImagePaths "![Fig](../src/images/a.png) done" = "![Fig](images/a.png) done".
Proof.
  destruct (image_link_normalised ["F"%char; "i"%char; "g"%char] ["a"%char; "."%char; "p"%char; "n"%char; "g"%char]
              [" "%char; "d"%char; "o"%char; "n"%char; "e"%char] "../src/"
              ltac:(simpl; tauto) eq_refl ltac:(discriminate) eq_refl
              ltac:(simpl; intuition discriminate)) as [H _].
  exact H.
Defined.

End PdfImages.

Module PdfBreaks.
Import Js Pdf StrFacts.

Lemma prefix_app (n a b : string) :
  String.prefix n a = true -> String.prefix n (String.append a b) = true.
Proof.
  revert n. induction a as [|c a IH]; intros n H.
  - destruct n; [destruct b; reflexivity | simpl in H; discriminate H].
  - destruct n as [|d n]; [reflexivity|]. simpl in H |- *.
    destruct (Ascii.ascii_dec d c); [exact (IH n H) | discriminate].
Qed.

Lemma includes_app_l (a b n : string) :
  includes a n = true -> includes (String.append a b) n = true.
Proof.
  induction a as [|c a IH]; intro H.
  - destruct n; [destruct b; reflexivity|]. simpl in H. discriminate.
  - change (String.prefix n (String c (String.append a b))
            || includes (String.append a b) n = true).
    change (String.prefix n (String c a) || includes a n = true) in H.
    apply orb_true_iff in H as [H|H].
    + apply orb_true_iff. left. exact (prefix_app n (String c a) b H).
    + apply orb_true_iff. right. exact (IH H).
Qed.

Lemma includes_app_r (a b n : string) :
  includes b n = true -> includes (String.append a b) n = true.
Proof.
  induction a as [|c a IH]; intro H; [exact H|].
  change (String.prefix n (String c (String.append a b))
          || includes (String.append a b) n = true).
  rewrite (IH H). apply orb_true_r.
Qed.

Definition piece (c : string) : string := cat [processImagePaths c; nl; nl].

Lemma add_chapters_after_heading (acc : string) (cs : list string) :
  includes acc "# " = true ->
  Forall (fun c => includes (processImagePaths c) "# " = true) cs ->
  add_chapters acc cs
  = String.append acc (fold_right (fun c r => String.append page_break (String.append (piece c) r)) "" cs).
Proof.
  revert acc. induction cs as [|c cs IH]; intros acc Hacc Hcs.
  - simpl. rewrite append_empty_r. reflexivity.
  - inversion Hcs as [|? ? Hc Hcs']; subst. simpl add_chapters. rewrite Hacc.
    rewrite IH.
    + unfold piece, cat. cbn [fold_right]. rewrite !append_empty_r, <- !append_assoc_s.
      reflexivity.
    + unfold cat. cbn [fold_right]. apply includes_app_r, includes_app_l, Hc.
    + exact Hcs'.
Qed.

Lemma join_fold (sep x : string) (l : list string) :
  join sep (x :: l) = String.append x (fold_right (fun y r => String.append sep (String.append y r)) "" l).
Proof.
  revert x. induction l as [|y l IH]; intro x.
  - simpl. rewrite append_empty_r. reflexivity.
  - change (join sep (x :: y :: l)) with (String.append x (String.append sep (join sep (y :: l)))).
    rewrite IH. reflexivity.
Qed.

(** When the text before the first chapter (title page and table of
    contents) has no ["# "] and every chapter has one, [buildPDF] puts
    exactly one page break between consecutive chapters and none before
    the first: the manuscript is the header followed by the chapters,
    each followed by two newlines, joined by the page break. *)
Theorem pdf_breaks_between_chapters (header : string) (cs : list string)
  (Hh : includes header "# " = false)
  (Hcs : Forall (fun c => includes (processImagePaths c) "# " = true) cs) :
  add_chapters header cs = String.append header (join page_break (map piece cs)).
Proof.
  destruct cs as [|c cs].
  - simpl. rewrite append_empty_r. reflexivity.
  - inversion Hcs as [|? ? Hc Hcs']; subst.
    simpl add_chapters. rewrite Hh.
    rewrite add_chapters_after_heading.
    + cbn [map]. rewrite join_fold.
      assert (Hf : forall l, fold_right (fun c r => String.append page_break (String.append (piece c) r)) "" l
                   = fold_right (fun y r => String.append page_break (String.append y r)) "" (map piece l))
        by (induction l as [|y l IHl]; [reflexivity | cbn [fold_right map]; rewrite IHl; reflexivity]).
      rewrite Hf. unfold piece, cat. cbn [fold_right].
      rewrite !append_empty_r, <- !append_assoc_s. reflexivity.
    + unfold cat. cbn [fold_right]. apply includes_app_r, includes_app_l, Hc.
    + exact Hcs'.
Qed.

Lemma pdf_breaks_between_chapters_witness :
  add_chapters "Title" ["# One"; "# Two"]
  = String.append "Title" (join page_break [piece "# One"; piece "# Two"]).
Proof.
  apply (pdf_breaks_between_chapters "Title" ["# One"; "# Two"] eq_refl).
  repeat constructor.
Defined.

End PdfBreaks.

Module WebNavNames.
Import WebNav Pdf StrFacts.

Lemma replace_first_eq (pat rep s : string) :
  replace_first pat rep s
  = if String.prefix pat s
    then String.append rep (substring (String.length pat) (String.length s - String.length pat) s)
    else match s with
         | EmptyString => EmptyString
         | String c r => String c (replace_first pat rep r)
         end.
Proof. destruct s; reflexivity. Qed.

Lemma prefix_md_boundary (c : ascii) (b : string) :
  String.prefix ".md" (String c b) = false ->
  String.prefix ".md" (String c (String.append b ".md")) = false.
Proof.
  destruct b as [|c1 [|c2 b]]; intro H.
  - cbn [String.prefix String.append]. destruct (Ascii.ascii_dec "." c); reflexivity.
  - cbn [String.prefix String.append]. destruct (Ascii.ascii_dec "." c); [|reflexivity].
    destruct (Ascii.ascii_dec "m" c1); reflexivity.
  - destruct b as [|c3 b]; exact H.
Qed.

Lemma replace_md_end (base rep : string) :
  includes base ".md" = false ->
  replace_first ".md" rep (String.append base ".md") = String.append base rep.
Proof.
  induction base as [|c b IH]; intro H.
  - change (String.append rep "" = rep). apply append_empty_r.
  - change (String.prefix ".md" (String c b) || includes b ".md" = false) in H.
    apply orb_false_iff in H as [H1 H2].
    rewrite replace_first_eq.
    change (String.append (String c b) ".md") with (String c (String.append b ".md")).
    rewrite (prefix_md_boundary c b H1).
    change (String c (replace_first ".md" rep (String.append b ".md")) = String c (String.append b rep)).
    rewrite (IH H2). reflexivity.
Qed.

Definition page_of (base : string) : Chapter :=
  mkChapter (String.append base ".html") base.

(** For chapter files named [base.md] whose bases are pairwise distinct
    and contain no [.md], [buildWeb] makes the page [base.html] of each
    chapter and links it to the chapter before it and the chapter after
    it in file order ([null] at either end). *)
Theorem web_pages_neighbours (bases : list string)
  (Hnd : NoDup bases) (Hmd : Forall (fun b => includes b ".md" = false) bases)
  (i : nat) (b : string) (Hi : nth_error bases i = Some b) :
  nth_error (web_pages (map (fun b => String.append b ".md") bases)) i
  = Some (page_of b,
          (match i with O => None | S k => option_map page_of (nth_error bases k) end,
           option_map page_of (nth_error bases (S i)))).
Proof.
  assert (Hch : map processChapter (map (fun b => String.append b ".md") bases) = map page_of bases).
  { rewrite map_map. apply map_ext_in. intros x Hx.
    rewrite Forall_forall in Hmd. unfold processChapter, page_of.
    rewrite !replace_md_end by exact (Hmd x Hx). rewrite append_empty_r. reflexivity. }
  unfold web_pages. rewrite Hch, nth_error_map.
  assert (Hpi : nth_error (map page_of bases) i = Some (page_of b))
    by (rewrite nth_error_map, Hi; reflexivity).
  rewrite Hpi. simpl option_map.
  rewrite (WebNavFacts.chapter_links_distinct_slugs (map page_of bases) i (page_of b)).
  - destruct i; rewrite ?nth_error_map; reflexivity.
  - rewrite map_map. simpl. rewrite map_id. exact Hnd.
  - exact Hpi.
Qed.

Lemma web_pages_neighbours_witness :
  nth_error (web_pages ["01-intro.md"; "02-setup.md"; "03-usage.md"]) 1
  = Some (page_of "02-setup", (Some (page_of "01-intro"), Some (page_of "03-usage"))).
Proof.
  apply (web_pages_neighbours ["01-intro"; "02-setup"; "03-usage"]
           ltac:(repeat constructor; simpl; intuition discriminate)
           ltac:(repeat constructor) 1 "02-setup" eq_refl).
Defined.

End WebNavNames.

Module ValidateExit.
Import Js Authors Validate.

Lemma app_nil_iff {A} (l r : list A) : l ++ r = [] <-> l = [] /\ r = [].
Proof. split; [apply app_eq_nil | intros [-> ->]; reflexivity]. Qed.


(** A stretch of [validateMetadata] that pushes no error and throws
    nothing. *)
Definition clean (o : Out) : Prop := errs o = [] /\ thrown o = None.

Lemma seq_out_clean (o1 o2 : Out) : clean (seq_out o1 o2) <-> clean o1 /\ clean o2.
Proof.
  destruct o1 as [e1 w1 [m|]]; unfold clean, seq_out; cbn [errs thrown].
  - split; [intros [_ H]; discriminate H | intros [[_ H] _]; discriminate H].
  - rewrite app_nil_iff. tauto.
Qed.

Lemma seq_all_clean (os : list Out) : clean (seq_all os) <-> Forall clean os.
Proof.
  unfold seq_all. induction os as [|o os IH]; cbn [fold_right].
  - split; [constructor | intros _; split; reflexivity].
  - rewrite seq_out_clean, IH, Forall_cons_iff. reflexivity.
Qed.

Lemma clean_ok : clean ok.
Proof. split; reflexivity. Qed.

Lemma clean_push_warning (w : string) : clean (push_warning w).
Proof. split; reflexivity. Qed.

Lemma not_clean_push_error (e : string) : ~ clean (push_error e).
Proof. intros [H _]. discriminate H. Qed.

Lemma not_clean_throw (m : string) : ~ clean (throw m).
Proof. intros [_ H]. discriminate H. Qed.

Lemma clean_if_error (b : bool) (e : string) :
  clean (if b then ok else push_error e) <-> b = true.
Proof.
  destruct b; split; intro H; try reflexivity; try exact clean_ok.
  - destruct (not_clean_push_error _ H).
  - discriminate H.
Qed.

Lemma with_prop_obj (props : list (string * YVal)) (k : string) (f : YVal -> Out) :
  with_prop (YObject props) k f = f (lookup k props).
Proof. reflexivity. Qed.

(** Only a mapping passes the check of the required fields. *)
Lemma check_required_object (md : YVal) :
  clean (check_required md) -> exists props, md = YObject props.
Proof.
  unfold check_required, seq_all. cbn [map fold_right].
  rewrite seq_out_clean. intros [H _].
  destruct md; try (eexists; reflexivity); unfold with_prop, get in H;
    solve [destruct (not_clean_throw _ H) | destruct (not_clean_push_error _ H)].
Qed.

Lemma check_required_clean (props : list (string * YVal)) :
  clean (check_required (YObject props))
  <-> ytruthy (lookup "title" props) = true /\ ytruthy (lookup "description" props) = true
      /\ ytruthy (lookup "date" props) = true.
Proof.
  unfold check_required, seq_all. cbn [map fold_right].
  rewrite !seq_out_clean, !with_prop_obj, !clean_if_error.
  pose proof clean_ok. tauto.
Qed.

Lemma check_author_clean (props : list (string * YVal)) :
  clean (check_author (YObject props))
  <-> ytruthy (lookup "author" props) = true \/ no_author_list (lookup "authors" props) = false.
Proof.
  unfold check_author. rewrite !with_prop_obj.
  destruct (ytruthy (lookup "author" props)).
  - split; [left; reflexivity | intros _; exact clean_ok].
  - destruct (no_author_list (lookup "authors" props)); split; intro H.
    + destruct (not_clean_push_error _ H).
    + destruct H as [H|H]; discriminate H.
    + right; reflexivity.
    + exact clean_ok.
Qed.

(** An entry of [authors] passes both of its checks when it is a mapping
    whose [name] is a non-empty string. *)
Definition name_ok (a : YVal) : Prop :=
  exists o s, a = YObject o /\ lookup "name" o = YString s /\ s <> "".

Lemma check_name_clean (i : nat) (a : YVal) : clean (check_name i a) <-> name_ok a.
Proof.
  unfold check_name, name_ok. rewrite seq_out_clean.
  destruct a as [| | b | nz | s | items | o];
    try solve [unfold with_prop, get; cbn [ytruthy]; split;
               [intros [H _]; first [destruct (not_clean_throw _ H)
                                    | destruct (not_clean_push_error _ H)]
               | intros (o0 & s0 & Ho & _); discriminate Ho]].
  rewrite !with_prop_obj.
  destruct (lookup "name" o) as [| | b | nz | s | items | o'] eqn:En; cbn [ytruthy];
    try solve [split;
               [intros [H _]; destruct (not_clean_push_error _ H)
               | intros (o0 & s & Ho & Hs & _); injection Ho as <-; rewrite En in Hs;
                 discriminate Hs]].
  - destruct b; [split|].
    + intros [_ H]. destruct (not_clean_push_error _ H).
    + intros (o0 & s & Ho & Hs & _). injection Ho as <-. rewrite En in Hs. discriminate Hs.
    + split; [intros [H _]; destruct (not_clean_push_error _ H)|].
      intros (o0 & s & Ho & Hs & _). injection Ho as <-. rewrite En in Hs. discriminate Hs.
  - destruct nz; [split|].
    + intros [_ H]. destruct (not_clean_push_error _ H).
    + intros (o0 & s & Ho & Hs & _). injection Ho as <-. rewrite En in Hs. discriminate Hs.
    + split; [intros [H _]; destruct (not_clean_push_error _ H)|].
      intros (o0 & s & Ho & Hs & _). injection Ho as <-. rewrite En in Hs. discriminate Hs.
  - split.
    + intros [H _]. destruct (String.eqb s "") eqn:Es; cbn [negb] in H.
      * destruct (not_clean_push_error _ H).
      * exists o, s. split; [reflexivity|]. split; [exact En|]. apply String.eqb_neq, Es.
    + intros (o0 & s0 & Ho & Hs & Hne). injection Ho as <-. rewrite En in Hs.
      injection Hs as <-. apply String.eqb_neq in Hne. rewrite Hne. cbn [negb].
      split; exact clean_ok.
  - split.
    + intros [_ H]. destruct (not_clean_push_error _ H).
    + intros (o0 & s & Ho & Hs & _). injection Ho as <-. rewrite En in Hs. discriminate Hs.
  - split.
    + intros [_ H]. destruct (not_clean_push_error _ H).
    + intros (o0 & s & Ho & Hs & _). injection Ho as <-. rewrite En in Hs. discriminate Hs.
Qed.

Lemma check_names_list_clean (l : list YVal) : forall k,
  Forall clean (map (fun p => check_name (fst p) (snd p)) (combine (seq k (List.length l)) l))
  <-> Forall name_ok l.
Proof.
  induction l as [|a l IH]; intro k; cbn [List.length seq combine map].
  - split; constructor.
  - rewrite !Forall_cons_iff, IH, check_name_clean. reflexivity.
Qed.

(** The entries of [authors] when it is an array. *)
Definition author_entries (v : YVal) : list YVal :=
  match v with YArray l => l | _ => [] end.

Lemma check_names_clean (props : list (string * YVal)) :
  clean (check_names (YObject props)) <-> Forall name_ok (author_entries (lookup "authors" props)).
Proof.
  unfold check_names. rewrite with_prop_obj.
  destruct (lookup "authors" props); cbn [author_entries];
    try (split; [constructor | intros _; exact clean_ok]).
  rewrite seq_all_clean. apply check_names_list_clean.
Qed.

Lemma check_recommended_clean (props : list (string * YVal)) :
  clean (check_recommended (YObject props)).
Proof.
  unfold check_recommended. rewrite seq_all_clean. cbn [map].
  repeat (apply Forall_cons; [rewrite with_prop_obj;
    match goal with |- clean (if ?b then _ else _) => destruct b end;
    first [exact clean_ok | exact (clean_push_warning _)]|]).
  apply Forall_nil.
Qed.

(** [metadata.kindle?.cover_image], [undefined] when absent. *)
Definition cover_value (props : list (string * YVal)) : YVal :=
  match lookup "kindle" props with
  | YUndefined | YNull => YUndefined
  | k => match get k "cover_image" with Some c => c | None => YUndefined end
  end.

Lemma check_cover_value_clean (cwd : string) (exists_path : string -> bool) (c : YVal) :
  clean (check_cover_value cwd exists_path c)
  <-> (ytruthy c = true ->
       exists s, c = YString s
                 /\ exists_path (resolve_src cwd (WebNav.replace_first "../" "" s)) = true).
Proof.
  unfold check_cover_value. destruct (ytruthy c) eqn:Et.
  - destruct c; try (split; [intro H; destruct (not_clean_throw _ H)
                            | intro H; destruct (H eq_refl) as (s & Hs & _); discriminate Hs]).
    cbv zeta. destruct (exists_path _) eqn:Ee; split; intro H.
    + intros _. exists s. split; [reflexivity | exact Ee].
    + exact clean_ok.
    + destruct (not_clean_push_error _ H).
    + destruct (H eq_refl) as (s' & Hs & He). injection Hs as <-. rewrite Ee in He.
      discriminate He.
  - split; [intros _ H; discriminate H | intros _; exact (clean_push_warning _)].
Qed.

Lemma check_cover_clean (cwd : string) (exists_path : string -> bool)
  (props : list (string * YVal)) :
  clean (check_cover cwd exists_path (YObject props))
  <-> clean (check_cover_value cwd exists_path (cover_value props)).
Proof.
  unfold check_cover, cover_value. rewrite with_prop_obj.
  destruct (lookup "kindle" props); reflexivity.
Qed.

Lemma validateMetadata_nil (cwd : string) (exists_path : string -> bool) (doc : string + YVal) :
  fst (validateMetadata cwd exists_path doc) = []
  <-> exists md, doc = inr md /\ clean (metadata_checks cwd exists_path md).
Proof.
  unfold validateMetadata, clean. cbn [fst].
  destruct doc as [m|md].
  - cbn [errs thrown]. split; [intro H; discriminate H|].
    intros (md & H & _). discriminate H.
  - rewrite app_nil_iff. split.
    + intros [He Ht]. exists md. split; [reflexivity|]. split; [exact He|].
      destruct (thrown _); [discriminate Ht | reflexivity].
    + intros (md' & H & He & Ht). injection H as <-. rewrite He, Ht. split; reflexivity.
Qed.

(** [validate] exits successfully exactly when the directory, chapter
    and image checks report nothing, [book.yaml] exists and parses to a
    mapping whose title, description and date are truthy, that has a
    truthy [author] or a non-empty [authors] array, whose [authors]
    entries, when it is an array, are all mappings with a non-empty
    string [name], and whose [kindle.cover_image], when truthy, is a
    string naming (after its first [../] is removed) an existing path
    [path.resolve('src', ...)]. Missing recommended fields and a missing
    cover only warn; an exception while reading the metadata is caught
    and reported as an error. *)
Theorem validate_ok_iff (cwd : string) (exists_path : string -> bool)
  (dir_errors : list string) (meta : option (string + YVal)) (content_errors : list string) :
  validate cwd exists_path dir_errors meta content_errors = ExitOk
  <-> dir_errors = [] /\ content_errors = []
      /\ exists props, meta = Some (inr (YObject props))
         /\ ytruthy (lookup "title" props) = true
         /\ ytruthy (lookup "description" props) = true
         /\ ytruthy (lookup "date" props) = true
         /\ (ytruthy (lookup "author" props) = true
             \/ no_author_list (lookup "authors" props) = false)
         /\ (forall a, In a (author_entries (lookup "authors" props)) ->
               exists o s, a = YObject o /\ lookup "name" o = YString s /\ s <> "")
         /\ (ytruthy (cover_value props) = true ->
             exists s, cover_value props = YString s
                       /\ exists_path (resolve_src cwd (WebNav.replace_first "../" "" s)) = true).
Proof.
  unfold validate.
  assert (Hr : forall l : list string,
            (match l with [] => ExitOk | _ :: _ => ExitFail end = ExitOk) <-> l = [])
    by (intros [|x l]; split; intro H; try reflexivity; discriminate).
  rewrite Hr, !app_nil_iff.
  destruct meta as [doc|].
  2:{ split; [intros (_ & H & _); discriminate H|].
      intros (_ & _ & props & H & _). discriminate H. }
  rewrite validateMetadata_nil.
  split.
  - intros (Hd & (md & Hdoc & Hc) & Hct). subst doc.
    unfold metadata_checks in Hc. rewrite seq_all_clean in Hc.
    apply Forall_cons_iff in Hc as [Hreq Hc].
    destruct (check_required_object md Hreq) as [props ->].
    apply Forall_cons_iff in Hc as [Hau Hc].
    apply Forall_cons_iff in Hc as [Hna Hc].
    apply Forall_cons_iff in Hc as [_ Hc].
    apply Forall_cons_iff in Hc as [Hco _].
    rewrite check_required_clean in Hreq. rewrite check_author_clean in Hau.
    rewrite check_names_clean in Hna. pose proof (proj1 (Forall_forall _ _) Hna) as Hna'.
    rewrite check_cover_clean, check_cover_value_clean in Hco.
    split; [exact Hd|]. split; [exact Hct|]. exists props. split; [reflexivity|].
    destruct Hreq as (H1 & H2 & H3).
    split; [exact H1|]. split; [exact H2|]. split; [exact H3|]. split; [exact Hau|].
    split; [exact Hna' | exact Hco].
  - intros (Hd & Hct & props & Hm & H1 & H2 & H3 & Hau & Hna & Hco).
    injection Hm as ->.
    split; [exact Hd|]. split; [|exact Hct].
    exists (YObject props). split; [reflexivity|].
    unfold metadata_checks. rewrite seq_all_clean.
    apply Forall_cons; [apply check_required_clean; tauto|].
    apply Forall_cons; [apply check_author_clean; exact Hau|].
    apply Forall_cons; [apply check_names_clean, Forall_forall; exact Hna|].
    apply Forall_cons; [apply check_recommended_clean|].
    apply Forall_cons; [apply check_cover_clean, check_cover_value_clean; exact Hco|].
    apply Forall_nil.
Qed.

End ValidateExit.
